(** * A shallow embedding of the MMCQ query-answering pipeline of the
    Monarch TRAPI knowledge provider (package [mmcq]).

    Python dictionaries are modelled as association lists that keep the
    insertion order of their keys ([dget], [dset]); Python exceptions are
    modelled by the error monad [res].  Numbers carried by attributes and
    scores are modelled as integers ([Z]): the code only compares them. *)

From Stdlib Require Import String Ascii List ZArith Bool Lia.
Import ListNotations.
Set Warnings "-register-all".
Open Scope string_scope.
Open Scope Z_scope.

(** ** Python exceptions and the error monad *)

Inductive pyerr : Type :=
| KeyError (key : string)
| IndexError
| TypeError (msg : string)
| RuntimeError (msg : string)
| PyException.

Inductive res (A : Type) : Type :=
| Ok (a : A)
| Err (e : pyerr).
Arguments Ok {A} a.
Arguments Err {A} e.

Definition bind {A B : Type} (m : res A) (k : A -> res B) : res B :=
  match m with
  | Ok a => k a
  | Err e => Err e
  end.

Notation "x <- m ;; k" := (bind m (fun x => k))
  (at level 61, m at next level, right associativity).

Fixpoint res_fold {A B : Type} (f : A -> B -> res A) (acc : A) (l : list B) : res A :=
  match l with
  | [] => Ok acc
  | b :: l' => a <- f acc b ;; res_fold f a l'
  end.

(** ** Python dictionaries (insertion ordered) *)

Section Dict.
Context {V : Type}.

Definition dict := list (string * V).

Fixpoint dget (k : string) (d : dict) : option V :=
  match d with
  | [] => None
  | (k', v) :: d' => if String.eqb k k' then Some v else dget k d'
  end.

(** [d[k] = v]: an existing key keeps its position, a new key goes last. *)
Fixpoint dset (k : string) (v : V) (d : dict) : dict :=
  match d with
  | [] => [(k, v)]
  | (k', v') :: d' => if String.eqb k k' then (k', v) :: d' else (k', v') :: dset k v d'
  end.

Definition dmem (k : string) (d : dict) : bool :=
  match dget k d with Some _ => true | None => false end.

(** [d[k]] as an expression: [KeyError] when absent. *)
Definition dindex (k : string) (d : dict) : res V :=
  match dget k d with Some v => Ok v | None => Err (KeyError k) end.

End Dict.
Arguments dict : clear implicits.

(** ** String helpers: [str.lstrip], [str.upper], [str.startswith] *)

(** Python's [s.lstrip(chars)] removes every leading character that occurs
    in [chars] (a character set, not a prefix). *)
Fixpoint py_lstrip (chars s : string) : string :=
  match s with
  | EmptyString => EmptyString
  | String c s' =>
      if existsb (Ascii.eqb c) (list_ascii_of_string chars)
      then py_lstrip chars s' else s
  end.

Definition ascii_upper (c : ascii) : ascii :=
  let n := nat_of_ascii c in
  if andb (Nat.leb 97 n) (Nat.leb n 122) then ascii_of_nat (n - 32) else c.

Fixpoint py_upper (s : string) : string :=
  match s with
  | EmptyString => EmptyString
  | String c s' => String (ascii_upper c) (py_upper s')
  end.

Definition py_startswith (s p : string) : bool := String.prefix p s.

(** The [biolink:] resource-role normalisation of
    [Question._construct_sources_tree]:
    [source['resource_role'].lstrip("biolink:")]. *)
Definition normalize_role (role : string) : string := py_lstrip "biolink:" role.

(** ** Attribute values, constraints and the operators of [constraints.py] *)

(** JSON attribute values: [None], booleans, numbers, strings and lists. *)
Inductive value : Type :=
| VNull
| VBool (b : bool)
| VNum (z : Z)
| VStr (s : string)
| VList (l : list value).

(** [isinstance(v, numbers.Number)]: a Python [bool] is a number. *)
Definition num_of (v : value) : option Z :=
  match v with
  | VBool b => Some (if b then 1 else 0)
  | VNum z => Some z
  | _ => None
  end.

(** Python [==]. *)
Fixpoint py_eq (a b : value) : bool :=
  match a, b with
  | VNull, VNull => true
  | VStr s, VStr t => String.eqb s t
  | VList l, VList m =>
      (fix go (l m : list value) : bool :=
         match l, m with
         | [], [] => true
         | x :: l', y :: m' => py_eq x y && go l' m'
         | _, _ => false
         end) l m
  | _, _ =>
      match num_of a, num_of b with
      | Some x, Some y => Z.eqb x y
      | _, _ => false
      end
  end.

(** Python [x in l] for a list [l]. *)
Definition py_in (x : value) (l : list value) : bool := existsb (py_eq x) l.

(** Python [a < b]: numeric, lexicographic on strings and on lists, and a
    [TypeError] otherwise. *)
Fixpoint py_lt (a b : value) : res bool :=
  match a, b with
  | VStr s, VStr t => Ok (match String.compare s t with Lt => true | _ => false end)
  | VList l, VList m =>
      (fix go (l m : list value) : res bool :=
         match l, m with
         | [], [] => Ok false
         | [], _ :: _ => Ok true
         | _ :: _, [] => Ok false
         | x :: l', y :: m' => if py_eq x y then go l' m' else py_lt x y
         end) l m
  | _, _ =>
      match num_of a, num_of b with
      | Some x, Some y => Ok (x <? y)
      | _, _ => Err (TypeError "'<' not supported between instances")
      end
  end.

Definition py_gt (a b : value) : res bool := py_lt b a.

(** [Operator.is_iterable]: iterable and not a string. *)
Definition is_iterable (v : value) : bool :=
  match v with VList _ => true | _ => false end.

Definition is_number (v : value) : bool :=
  match num_of v with Some _ => true | None => false end.

Definition same_py_type (a b : value) : bool :=
  match a, b with
  | VNull, VNull | VBool _, VBool _ | VNum _, VNum _ | VStr _, VStr _
  | VList _, VList _ => true
  | _, _ => false
  end.

(** [Operator.is_same_data_type]. *)
Definition is_same_data_type (a b : value) : bool :=
  same_py_type a b || (is_number a && is_number b) || (is_iterable a && is_iterable b).

Inductive operator : Type :=
| equal_to
| deep_equal_to
| greater_than
| less_than
| matches.

Record attribute_constraint : Type := mkConstraint {
  c_id : string;
  c_name : string;
  c_negated : bool;
  c_operator : operator;
  c_value : value
}.

Record attribute : Type := mkAttribute {
  attribute_type_id : string;
  original_attribute_name : option string;
  a_value : value;
  value_type_id : option string;
  attribute_source : option string
}.

Section Operators.

(** [bool(re.compile(a).match(b))]: left-anchored regular-expression
    matching, from Python's [re] module; [Err] when [a] does not compile. *)
Variable re_match : string -> string -> res bool.

(** [operator_map[op](a, b)], with [a] the constraint value and [b] the
    value of the attribute. *)
Definition apply_operator (op : operator) (a b : value) : res bool :=
  if negb (is_same_data_type a b) then Ok false else
  match op with
  | equal_to =>
      match a, b with
      | VList la, VList lb => Ok (existsb (fun x => py_in x la) lb)
      | _, _ => Ok (py_eq a b)
      end
  | deep_equal_to => Ok (py_eq a b)
  | greater_than => py_gt a b
  | less_than => py_lt a b
  | matches =>
      match a, b with
      | VStr sa, VStr sb =>
          match re_match sa sb with Ok r => Ok r | Err _ => Err PyException end
      | VList la, VList lb => Ok (existsb (fun x => py_in x la) lb)
      | _, _ => Ok (py_eq a b)
      end
  end.

(** [check_attribute_constraint]: the operator, inverted when negated. *)
Definition check_attribute_constraint (c : attribute_constraint) (db_value : value) : res bool :=
  r <- apply_operator (c_operator c) (c_value c) db_value ;;
  Ok (if c_negated c then negb r else r).

(** The inner loop of [check_attributes] over the attributes for one
    constraint: [Ok None] is the early [return False], [Ok (Some applied)]
    carries the [constraint_is_applied] flag. *)
Fixpoint check_constraint_attrs (c : attribute_constraint) (attrs : list attribute)
    (applied : bool) : res (option bool) :=
  match attrs with
  | [] => Ok (Some applied)
  | a :: rest =>
      if String.eqb (attribute_type_id a) (c_id c) then
        r <- check_attribute_constraint c (a_value a) ;;
        if r then check_constraint_attrs c rest true else Ok None
      else check_constraint_attrs c rest applied
  end.

Fixpoint check_attributes (cs : list attribute_constraint) (db_attributes : list attribute)
    : res bool :=
  match cs with
  | [] => Ok true
  | c :: cs' =>
      o <- check_constraint_attrs c db_attributes false ;;
      match o with
      | Some true => check_attributes cs' db_attributes
      | _ => Ok false
      end
  end.

End Operators.

(** ** Query graph nodes and [trapi.mcq_subject_qnode] *)

(** A TRAPI query node as the request model dumps it: every field is
    present, [None] ([VNull] in JSON) being [None] here. *)
Record qnode : Type := mkQNode {
  is_set : option bool;
  set_interpretation_q : option string;
  ids : option (list string);
  member_ids : option (list string);
  categories : option (list string);
  constraints : list attribute_constraint
}.

Definition str_truthy (s : string) : bool := negb (String.eqb s "").

(** [len(x)] of a field that may be [None]. *)
Definition py_len {A : Type} (o : option (list A)) : res nat :=
  match o with
  | Some l => Ok (length l)
  | None => Err (TypeError "object of type 'NoneType' has no len()")
  end.

(** [x[i]] of a field that may be [None]. *)
Definition py_nth {A : Type} (o : option (list A)) (i : nat) : res A :=
  match o with
  | Some l => match nth_error l i with Some a => Ok a | None => Err IndexError end
  | None => Err (TypeError "'NoneType' object is not subscriptable")
  end.

Definition mcq_error_msg : string :=
  "Query Graph Node 'set_interpretation' is 'MANY' or 'ALL', thus 'ids' must have a single global ('UUID') set identifier and query input identifiers for the set need to be listed in the 'member_ids' list.".

(** [is_set] and a [set_interpretation] in [["MANY", "ALL"]]. *)
Definition declares_mcq_set (n : qnode) : bool :=
  match is_set n, set_interpretation_q n with
  | Some true, Some si => String.eqb si "MANY" || String.eqb si "ALL"
  | _, _ => false
  end.

(** [mcq_subject_qnode]: [Ok None] for a node that is not a MANY/ALL set,
    the first category of a well-formed MCQ subject node, and a
    [RuntimeError] for an ill-formed one.  Python's [and] short-circuits,
    which the nested tests below follow. *)
Definition mcq_subject_qnode (n : qnode) : res (option string) :=
  if negb (declares_mcq_set n) then Ok None else
  let fail := Err (RuntimeError mcq_error_msg) in
  n_ids <- py_len (ids n) ;;
  if negb (Nat.eqb n_ids 1) then fail else
  id0 <- py_nth (ids n) 0 ;;
  if negb (py_startswith (py_upper id0) "UUID:") then fail else
  n_members <- py_len (member_ids n) ;;
  if negb (Nat.ltb 0 n_members) then fail else
  c <- py_nth (categories n) 0 ;;
  Ok (Some c).

(** ** The similarity client: [MonarchInterface.semsim_search] *)

Inductive SemsimSearchCategory : Type := HGNC | MGI | RGD | ZFIN | WB | MONDO.

Definition group_value (g : SemsimSearchCategory) : string :=
  match g with
  | HGNC => "Human Genes"
  | MGI => "Mouse Genes"
  | RGD => "Rat Genes"
  | ZFIN => "Zebrafish Genes"
  | WB => "C. Elegans Genes"
  | MONDO => "Human Diseases"
  end.

(** The JSON body POSTed to the SemSimian endpoint. *)
Record semsim_query : Type := mkSemsimQuery {
  termset : list string;
  group : string;
  directionality : string;
  limit : Z
}.

Record object_match : Type := mkObjectMatch {
  match_source : string;
  match_source_label : string;
  match_target : string;
  match_target_label : string;
  om_score : Z;
  ancestor_id : option string
}.

Record semsim_subject : Type := mkSemsimSubject {
  subject_id_s : string;
  subject_name_s : string;
  subject_category_s : string;
  subject_provided_by_s : option string
}.

(** One element of the SemSimian JSON list. *)
Record semsim_record : Type := mkSemsimRecord {
  subject : semsim_subject;
  score : Z;
  object_best_matches : option (dict object_match)
}.

Record http_response : Type := mkHttpResponse {
  status_code : Z;
  response_json : list semsim_record
}.

(** The request body built by [semsim_search], after its coercion of
    [result_limit]. *)
Definition semsim_request (query_terms : list string) (g : SemsimSearchCategory)
    (result_limit : Z) : semsim_query :=
  let result_limit :=
    if (result_limit <? 1) || (50 <? result_limit) then 50 else result_limit in
  {| termset := query_terms;
     group := group_value g;
     directionality := "object_to_subject";
     limit := result_limit |}.

(** [semsim_search]: [post] is the HTTP POST to [SEMSIMIAN_ENDPOINT]. *)
Definition semsim_search (post : semsim_query -> http_response)
    (query_terms : list string) (g : SemsimSearchCategory) (result_limit : Z)
    : res (list semsim_record) :=
  let query := semsim_request query_terms g result_limit in
  let response := post query in
  if negb (status_code response =? 200)
  then Err (RuntimeError "Monarch SemSimian returned HTTP error code")
  else Ok (response_json response).

(** ** The result parser: [MonarchInterface.parse_raw_semsim] *)

(** [TERM_DATA]: one TermMatch. *)
Record term_data : Type := mkTermData {
  subject_id : string;
  subject_name : string;
  object_id : string;
  object_name : string;
  td_category : string;
  td_score : Z;
  matched_term : string
}.

(** [RESULT_ENTRY]: one candidate; [re_provided_by] is [None] when the key
    is absent. *)
Record result_entry : Type := mkResultEntry {
  re_name : string;
  re_category : string;
  re_score : Z;
  re_provided_by : option string;
  re_matches : list term_data
}.

(** [RESULT]: a non-empty result dictionary. *)
Record result_t : Type := mkResult {
  set_interpretation : string;
  set_identifier : string;
  query_terms : list string;
  query_term_category : string;
  primary_knowledge_source : string;
  ingest_knowledge_source : string;
  match_predicate : string;
  result_map : dict result_entry
}.

(** [_map_source.setdefault(provided_by, f"infores:{provided_by}")]. *)
Definition map_source (provided_by : string) : string :=
  if String.eqb provided_by "phenio_nodes" then "infores:upheno"
  else "infores:" ++ provided_by.

Definition term_data_of_match (match_category : string) (om : object_match) : term_data :=
  let mt :=
    match ancestor_id om with
    | Some a => if str_truthy a then a else match_target om
    | None => match_target om
    end in
  {| subject_id := match_target om;
     subject_name := match_target_label om;
     object_id := match_source om;
     object_name := match_source_label om;
     td_category := match_category;
     td_score := om_score om;
     matched_term := mt |}.

Definition entry_of_record (match_category : string) (entry : semsim_record) : result_entry :=
  let s := subject entry in
  {| re_name := subject_name_s s;
     re_category := subject_category_s s;
     re_score := score entry;
     re_provided_by :=
       match subject_provided_by_s s with
       | Some p => if str_truthy p then Some (map_source p) else None
       | None => None
       end;
     re_matches :=
       match object_best_matches entry with
       | Some obm => map (fun kv => term_data_of_match match_category (snd kv)) obm
       | None => []
       end |}.

Definition parse_raw_semsim (full_result : list semsim_record) (match_category : string)
    : dict result_entry :=
  fold_left
    (fun result entry =>
       dset (subject_id_s (subject entry)) (entry_of_record match_category entry) result)
    full_result [].

(** ** [MonarchInterface.phenotype_semsim_to_disease] *)

(** The loop over the query nodes, up to the first node recognised as the
    MCQ subject ([break]); a node's check may raise. *)
Fixpoint find_mcq_subject (nodes : dict qnode) : res (option qnode) :=
  match nodes with
  | [] => Ok None
  | (_, n) :: rest =>
      match mcq_subject_qnode n with
      | Ok (Some c) => if str_truthy c then Ok (Some n) else find_mcq_subject rest
      | Ok None => find_mcq_subject rest
      | Err e => Err e
      end
  end.

(** The returned [result]: [None] is the empty dictionary returned when no
    MCQ subject node was found (the query logs are left out). *)
Definition phenotype_semsim_to_disease (post : semsim_query -> http_response)
    (nodes : dict qnode) (result_limit : Z) : res (option result_t) :=
  found <-
    match find_mcq_subject nodes with
    | Err (RuntimeError _) => Ok None   (* [except RuntimeError]: logged *)
    | r => r
    end ;;
  match found with
  | None => Ok None
  | Some qn =>
      si <- (match set_interpretation_q qn with
             | Some s => Ok s | None => Err (KeyError "set_interpretation") end) ;;
      set_id <- py_nth (ids qn) 0 ;;
      qterms <- (match member_ids qn with
                 | Some l => Ok l | None => Err (KeyError "member_ids") end) ;;
      let category :=
        match categories qn with
        | Some (c :: _) => c
        | _ => "biolink:NamedThing"
        end in
      full_result <- semsim_search post qterms MONDO result_limit ;;
      first <- (match nth_error full_result 0 with
                | Some r => Ok r | None => Err IndexError end) ;;
      (* a decoded SemSimian record is a non-empty dictionary: truthy *)
      let rmap := parse_raw_semsim full_result category in
      Ok (Some {| set_interpretation := si;
                  set_identifier := set_id;
                  query_terms := qterms;
                  query_term_category := category;
                  primary_knowledge_source := "infores:semsimian-kp";
                  ingest_knowledge_source := "infores:hpo-annotations";
                  match_predicate := "biolink:has_phenotype";
                  result_map := rmap |})
  end.

(** ** TRAPI messages *)

Inductive resource_id_t : Type :=
| RStr (s : string)
| RList (l : list string).

(** An edge [sources] entry; absent keys and JSON [null] are [None]. *)
Record source : Type := mkSource {
  resource_id : option resource_id_t;
  resource_role : option string;
  source_record_urls : option (list string);
  upstream_resource_ids : option (list string)
}.

Definition stub (rid role : string) : source :=
  {| resource_id := Some (RStr rid); resource_role := Some role;
     source_record_urls := None; upstream_resource_ids := None |}.

Record kg_node : Type := mkKGNode {
  n_name : option string;
  n_categories : list string;
  n_is_set : option bool;
  n_members : option (list string);
  n_provided_by : option value;
  n_attributes : option (list attribute)
}.

Record kg_edge : Type := mkKGEdge {
  e_subject : string;
  e_predicate : string;
  e_object : string;
  e_sources : list source;
  e_attributes : list attribute
}.

Record analysis : Type := mkAnalysis {
  an_resource_id : string;
  edge_bindings : dict (list string)
}.

(** A TRAPI result: the bound ids of [{"id": ...}] lists. *)
Record trapi_result : Type := mkTrapiResult {
  node_bindings : dict (list string);
  analyses : list analysis
}.

Record qedge : Type := mkQEdge {
  qe_subject : string;
  qe_object : string;
  attribute_constraints : list attribute_constraint
}.

Record query_graph : Type := mkQueryGraph {
  qg_nodes : dict qnode;
  qg_edges : dict qedge
}.

(** A TRAPI message; [auxiliary_graphs] is [None] when the key is absent;
    an auxiliary graph is its list of edge ids. *)
Record message : Type := mkMessage {
  m_query_graph : query_graph;
  kg_nodes : dict kg_node;
  kg_edges : dict kg_edge;
  auxiliary_graphs : option (dict (list string));
  m_results : list trapi_result
}.

(** ** The edge-id allocator: [next_edge_id] formats [f"e{edge_idx:0>4}"] *)

Fixpoint nat_digits (fuel n : nat) (acc : string) : string :=
  match fuel with
  | O => acc
  | S f =>
      let acc' := String (ascii_of_nat (48 + Nat.modulo n 10)) acc in
      if Nat.ltb n 10 then acc' else nat_digits f (Nat.div n 10) acc'
  end.

Definition nat_to_string (n : nat) : string := nat_digits (S n) n "".

Fixpoint zeros (k : nat) : string :=
  match k with O => "" | S k' => String "0" (zeros k') end.

Definition fmt_edge_id (n : nat) : string :=
  let s := nat_to_string n in "e" ++ zeros (4 - String.length s) ++ s.

(** ** The response assembler: [trapi.build_trapi_message] *)

Definition attr (tid : string) (v : value) : attribute :=
  {| attribute_type_id := tid; original_attribute_name := None; a_value := v;
     value_type_id := None; attribute_source := None |}.

Definition attr_full (tid oname : option string) (v : value) (vt src : string) : attribute :=
  {| attribute_type_id := match tid with Some t => t | None => "" end;
     original_attribute_name := oname; a_value := v;
     value_type_id := Some vt; attribute_source := Some src |}.

Definition AGGREGATE_SIMILARITY_SCORE : string := "semsimian:score".
Definition MATCH_TERM_SCORE : string := "semsimian:object_best_matches.*.score".
Definition MATCH_TERM : string := "semsimian:object_best_matches.*.similarity.ancestor_id".

Definition automated_attrs : list attribute :=
  [attr "biolink:agent_type" (VStr "automated_agent");
   attr "biolink:knowledge_level" (VStr "knowledge_assertion")].

(** An entry of [query_term_match_cache]. *)
Record cache_entry : Type := mkCacheEntry {
  ce_name : string;
  ce_category : string;
  ce_query_term : string;
  ce_score : Z;
  ce_primary_answer_term : string;
  ce_edges : dict kg_edge
}.

(** The state threaded through the assembly. *)
Record build_state : Type := mkBuildState {
  node_map : dict kg_node;
  edges : dict kg_edge;
  aux : dict (list string);
  results : list trapi_result;
  edge_idx : nat
}.

Section Build.

(** [get_categories]: Biolink ancestors of a category, from the Biolink
    Model Toolkit. *)
Variable get_categories : string -> list string.

(** The loop state of the TermMatch loop of one candidate: the node map,
    the edge counter, the match cache and [input_query_term_seen]. *)
Definition match_loop_state : Type :=
  (dict kg_node * nat * dict cache_entry * dict bool)%type.

(** One iteration of [for term_data in matches]. *)
Definition match_step (r : result_t) (primary_answer_term_id : string)
    (answer_sources : list source) (st : match_loop_state) (td : term_data)
    : res match_loop_state :=
  let '(nm, idx, cache, seen) := st in
  let term_subject_id := subject_id td in
  let term_object_id := object_id td in
  let dedup :=
    match dget term_subject_id cache with
    | Some ce =>
        if td_score td <? ce_score ce then None   (* continue *)
        else Some (dset (ce_query_term ce) false seen)
    | None => Some seen
    end in
  match dedup with
  | None => Ok st
  | Some seen1 =>
      let seen2 := if dmem term_object_id seen1 then dset term_object_id true seen1 else seen1 in
      nd <- dindex term_object_id nm ;;
      let nm' :=
        match n_name nd with
        | Some _ => nm
        | None =>
            dset term_object_id
              {| n_name := Some (object_name td); n_categories := n_categories nd;
                 n_is_set := n_is_set nd; n_members := n_members nd;
                 n_provided_by := n_provided_by nd; n_attributes := n_attributes nd |} nm
        end in
      let match_to_input_term_edge_id := fmt_edge_id (S idx) in
      let matched_term_edge_id := fmt_edge_id (S (S idx)) in
      let input_edge :=
        {| e_subject := term_subject_id;
           e_predicate := "biolink:similar_to";
           e_object := term_object_id;
           e_sources := answer_sources;
           e_attributes := (
             [attr_full (Some "biolink:score") (Some MATCH_TERM_SCORE) (VNum (td_score td))
                "linkml:Float" (primary_knowledge_source r);
              attr_full (Some "biolink:match") (Some MATCH_TERM) (VStr (matched_term td))
                "linkml:Uriorcurie" (primary_knowledge_source r)] ++ automated_attrs)%list |} in
      let candidate_edge :=
        {| e_subject := primary_answer_term_id;
           e_predicate := match_predicate r;
           e_object := term_subject_id;
           e_sources := [stub (ingest_knowledge_source r) "primary_knowledge_source"];
           e_attributes := (
             attr_full (Some "biolink:has_evidence") None (VStr "ECO:0000304")
               "linkml:Uriorcurie" (ingest_knowledge_source r) :: automated_attrs) |} in
      let entry :=
        {| ce_name := subject_name td;
           ce_category := td_category td;
           ce_query_term := term_object_id;
           ce_score := td_score td;
           ce_primary_answer_term := primary_answer_term_id;
           ce_edges := [(match_to_input_term_edge_id, input_edge);
                       (matched_term_edge_id, candidate_edge)] |} in
      Ok (nm', S (S idx), dset term_subject_id entry cache, seen2)
  end.

Definition common_sources (r : result_t) : list source :=
  [stub (primary_knowledge_source r) "primary_knowledge_source";
   stub (ingest_knowledge_source r) "supporting_data_source"].

(** One iteration of the support-graph loop [for term_match_id, details in
    query_term_match_cache.items()]: node map, edge map and the edge list of
    the support graph. *)
Definition support_step (membership : dict string)
    (acc : dict kg_node * dict kg_edge * list string) (kv : string * cache_entry)
    : res (dict kg_node * dict kg_edge * list string) :=
  let '(nm, es, sg) := acc in
  let '(term_match_id, details) := kv in
  let nm' :=
    if dmem term_match_id nm then nm
    else dset term_match_id
           {| n_name := Some (ce_name details);
              n_categories := get_categories (ce_category details);
              n_is_set := None; n_members := None; n_provided_by := None;
              n_attributes := None |} nm in
  let es' := fold_left (fun acc' e => dset (fst e) (snd e) acc') (ce_edges details) es in
  mid <- dindex (ce_query_term details) membership ;;
  Ok (nm', es', (sg ++ map fst (ce_edges details) ++ [mid])%list).

(** [answer_sources]: the sources of the answer edge and of the
    match-to-input edges of one candidate. *)
Definition answer_sources_of (r : result_t) (result_entry : result_entry) : list source :=
  (common_sources r ++
   match re_provided_by result_entry with
   | Some p => [stub p "supporting_data_source"]
   | None => []
   end)%list.

(** The TermMatch loop of one candidate, from [input_query_term_seen] with
    every input term unseen and an empty match cache. *)
Definition match_loop (r : result_t) (primary_answer_term_id : string)
    (result_entry : result_entry) (nm : dict kg_node) (idx : nat) : res match_loop_state :=
  let seen0 := fold_left (fun d t => dset t false d) (query_terms r) [] in
  res_fold (match_step r primary_answer_term_id (answer_sources_of r result_entry))
    (nm, idx, [], seen0) (re_matches result_entry).

(** One iteration of [for primary_answer_term_id, result_entry in
    result_map.items()]; [membership] is [query_term_membership_edges]. *)
Definition candidate_step (r : result_t) (provenance qnode_subject_key qnode_object_key : string)
    (membership : dict string) (st : build_state) (kv : string * result_entry)
    : res build_state :=
  let '(primary_answer_term_id, result_entry) := kv in
  let answer_sources := answer_sources_of r result_entry in
  loop <- match_loop r primary_answer_term_id result_entry (node_map st) (edge_idx st) ;;
  let '(nm, idx, cache, seen) := loop in
  if String.eqb (set_interpretation r) "ALL" && negb (forallb snd seen) then
    (* the candidate is skipped: [continue] *)
    Ok {| node_map := nm; edges := edges st; aux := aux st;
          results := results st; edge_idx := idx |}
  else
    nm1 <- (if dmem primary_answer_term_id nm then Ok nm
            else
              pb <- (match re_provided_by result_entry with
                     | Some p => Ok p
                     | None => Err (KeyError "provided_by") end) ;;
              Ok (dset primary_answer_term_id
                    {| n_name := Some (re_name result_entry);
                       n_categories := get_categories (re_category result_entry);
                       n_is_set := Some false; n_members := None;
                       n_provided_by := Some (VStr pb); n_attributes := None |} nm)) ;;
    let answer_edge_id := fmt_edge_id (S idx) in
    let support_graph_id := "sg-" ++ answer_edge_id in
    let answer_edge :=
      {| e_subject := primary_answer_term_id;
         e_predicate := "biolink:similar_to";
         e_object := set_identifier r;
         e_sources := answer_sources;
         e_attributes :=
           ([attr_full (Some "biolink:score") (Some AGGREGATE_SIMILARITY_SCORE)
               (VNum (re_score result_entry)) "linkml:Float" (primary_knowledge_source r);
             attr_full (Some "biolink:support_graphs") None (VList [VStr support_graph_id])
               "linkml:String" (primary_knowledge_source r)] ++ automated_attrs)%list |} in
    let es1 := dset answer_edge_id answer_edge (edges st) in
    sup <- res_fold (support_step membership) (nm1, es1, []) cache ;;
    let '(nm2, es2, sg_edges) := sup in
    let binding :=
      {| node_bindings := [(qnode_subject_key, [set_identifier r]);
                           (qnode_object_key, [primary_answer_term_id])];
         analyses := [{| an_resource_id := provenance;
                          edge_bindings := [("e01", [answer_edge_id])] |}] |} in
    (* [auxiliary_graphs[support_graph_id] = {"edges": []}], then appended to *)
    Ok {| node_map := nm2; edges := es2;
          aux := dset support_graph_id sg_edges (aux st);
          results := (results st ++ [binding])%list;
          edge_idx := S idx |}.

(** Phase A and B: the set node, the member nodes and their [member_of]
    edges, with [query_term_membership_edges]. *)
Definition member_step (r : result_t) (acc : build_state * dict string) (term_id : string)
    : build_state * dict string :=
  let '(st, membership) := acc in
  let member_edge_id := fmt_edge_id (S (edge_idx st)) in
  let member_edge :=
    {| e_subject := term_id;
       e_predicate := "biolink:member_of";
       e_object := set_identifier r;
       e_sources := [stub "infores:user-interface" "primary_knowledge_source"];
       e_attributes := [attr "biolink:agent_type" (VStr "manual_agent");
                        attr "biolink:knowledge_level" (VStr "knowledge_assertion")] |} in
  ({| node_map :=
        dset term_id
          {| n_name := None; n_categories := get_categories (query_term_category r);
             n_is_set := Some false; n_members := None;
             n_provided_by := Some (VList [VStr "infores:user-interface"]);
             n_attributes := None |} (node_map st);
      edges := dset member_edge_id member_edge (edges st);
      aux := aux st; results := results st; edge_idx := S (edge_idx st) |},
   dset term_id member_edge_id membership).

Definition set_node (r : result_t) : kg_node :=
  {| n_name := None; n_categories := get_categories (query_term_category r);
     n_is_set := Some true; n_members := Some (query_terms r);
     n_provided_by := Some (VList [VStr "infores:user-interface"]);
     n_attributes := None |}.

(** The query-node key scan of [build_trapi_message]. *)
Fixpoint qnode_keys (nodes : dict qnode) (subj obj : string) : res (string * string) :=
  match nodes with
  | [] => Ok (subj, obj)
  | (k, n) :: rest =>
      c <- mcq_subject_qnode n ;;
      match c with
      | Some c' => if str_truthy c' then qnode_keys rest k obj else qnode_keys rest subj k
      | None => qnode_keys rest subj k
      end
  end.

(** The outcome of [build_trapi_message]: an [{"error": ...}] dictionary
    or the response (knowledge graph, auxiliary graphs and results). *)
Inductive build_out : Type :=
| BuildError (msg : string)
| BuildOk (st : build_state).

Definition build_trapi_message (trapi_message : query_graph) (r : result_t)
    (provenance : string) : res build_out :=
  let nodes := qg_nodes trapi_message in
  if Nat.eqb (length nodes) 0 || Nat.ltb 2 (length nodes)
  then Ok (BuildError "build_trapi_message(): exact two query nodes are required")
  else
  match qnode_keys nodes "n0" "n1" with
  | Err (RuntimeError msg) => Ok (BuildError msg)
  | Err e => Err e
  | Ok (qnode_subject_key, qnode_object_key) =>
      let st0 := {| node_map := [(set_identifier r, set_node r)]; edges := [];
                    aux := []; results := []; edge_idx := 0 |} in
      let '(st1, membership) := fold_left (member_step r) (query_terms r) (st0, []) in
      st2 <- res_fold (candidate_step r provenance qnode_subject_key qnode_object_key membership)
               st1 (result_map r) ;;
      Ok (BuildOk st2)
  end.

End Build.

(** ** Provenance: [Question._construct_sources_tree] *)

Definition rid_truthy (r : resource_id_t) : bool :=
  match r with RStr s => str_truthy s | RList l => negb (Nat.eqb (length l) 0) end.

(** [set.add], a set being kept as a duplicate-free list. *)
Definition set_add (x : string) (s : list string) : list string :=
  if existsb (String.eqb x) s then s else (s ++ [x])%list.

Definition system_entry (provenance : string) (ups : option (list string)) : source :=
  {| resource_id := Some (RStr provenance);
     resource_role := Some "aggregator_knowledge_source";
     source_record_urls := None;
     upstream_resource_ids := ups |}.

(** [list(s) if s else None] for an optional set. *)
Definition list_if_truthy (o : option (list string)) : option (list string) :=
  match o with
  | Some ((_ :: _) as l) => Some l
  | _ => None
  end.

(** [a or b] on optional sets. *)
Definition or_set (a b : option (list string)) : option (list string) :=
  match a with
  | Some (_ :: _) => a
  | _ => b
  end.

(** The filtering loop: [resource_ids_with_resource_role] and
    [source_record_urls_to_resource_id].  A list-valued [resource_id] used
    as a dictionary key raises [TypeError: unhashable type: 'list']. *)
Definition sources_step (acc : dict (list string) * dict (option (list string)))
    (src : source) : res (dict (list string) * dict (option (list string))) :=
  let '(groups, urls) := acc in
  match resource_id src, resource_role src with
  | Some rid, Some role =>
      if negb (rid_truthy rid && str_truthy role) then Ok acc else
      let role' := normalize_role role in
      let groups1 :=
        dset role' (match dget role' groups with Some s => s | None => [] end) groups in
      match rid with
      | RList _ => Err (TypeError "unhashable type: 'list'")
      | RStr id =>
          let urls1 := dset id (source_record_urls src) urls in
          let s := match dget role' groups1 with Some s => s | None => [] end in
          Ok (dset role' (set_add id s) groups1, urls1)
      end
  | _, _ => Ok acc   (* pruned with a warning *)
  end.

Definition format_role (groups : dict (list string)) (urls : dict (option (list string)))
    (g : string * list string) : list source :=
  let '(role, rids) := g in
  let upstreams :=
    if String.eqb role "aggregator_knowledge_source" then dget "primary_knowledge_source" groups
    else if String.eqb role "primary_knowledge_source" then dget "supporting_data_source" groups
    else None in
  map (fun rid =>
         {| resource_id := Some (RStr rid);
            resource_role := Some role;
            source_record_urls := match dget rid urls with Some u => u | None => None end;
            upstream_resource_ids := list_if_truthy upstreams |}) rids.

Definition construct_sources_tree (provenance : string) (sources : list source) : res (list source) :=
  match sources with
  | [] => Ok [system_entry provenance None]
  | _ =>
      acc <- res_fold sources_step ([], []) sources ;;
      let '(groups, urls) := acc in
      let formatted := flat_map (format_role groups urls) groups in
      let top :=
        or_set (dget "aggregator_knowledge_source" groups)
          (or_set (dget "primary_knowledge_source" groups)
             (dget "supporting_data_source" groups)) in
      Ok (formatted ++ [system_entry provenance (list_if_truthy top)])%list
  end.

(** ** The attribute engine: [Question.apply_attribute_constraints] *)

Definition smem (x : string) (s : list string) : bool := existsb (String.eqb x) s.

(** Bindings of one [node_bindings] or [edge_bindings] dictionary with the
    filtered ids removed; [true] when some list became empty ([break]). *)
Fixpoint filter_bindings (drop : list string) (b : dict (list string))
    (acc : dict (list string)) : dict (list string) * bool :=
  match b with
  | [] => (acc, false)
  | (q, l) :: rest =>
      match filter (fun x => negb (smem x drop)) l with
      | [] => (acc, true)
      | l' => filter_bindings drop rest (dset q l' acc)
      end
  end.

Section Constraints.

Variable re_match : string -> string -> res bool.

Definition node_constraints (qg : query_graph) : dict (list attribute_constraint) :=
  map (fun kv => (fst kv, constraints (snd kv)))
    (filter (fun kv => negb (Nat.eqb (length (constraints (snd kv))) 0)) (qg_nodes qg)).

Definition edge_constraints (qg : query_graph) : dict (list attribute_constraint) :=
  map (fun kv => (fst kv, attribute_constraints (snd kv)))
    (filter (fun kv => negb (Nat.eqb (length (attribute_constraints (snd kv))) 0)) (qg_edges qg)).

(** [constrained_node_ids] and [constrained_edge_ids] for one result. *)
Definition collect_constrained (ncs ecs : dict (list attribute_constraint))
    (acc : dict (list attribute_constraint) * dict (list attribute_constraint))
    (r : trapi_result)
    : res (dict (list attribute_constraint) * dict (list attribute_constraint)) :=
  let '(cn, ce) := acc in
  cn' <- res_fold (fun d qc =>
                     bound <- dindex (fst qc) (node_bindings r) ;;
                     Ok (fold_left (fun d' nid => dset nid (snd qc) d') bound d))
           cn ncs ;;
  let ce' :=
    fold_left (fun d qc =>
                 fold_left (fun d' an =>
                              fold_left (fun d'' eid => dset eid (snd qc) d'')
                                (match dget (fst qc) (edge_bindings an) with
                                 | Some l => l | None => [] end) d')
                   (analyses r) d)
      ecs ce in
  Ok (cn', ce').

Definition mark_node (nodes : dict kg_node) (acc : list string)
    (kv : string * list attribute_constraint) : res (list string) :=
  let '(node_id, cs) := kv in
  kg_node <- dindex node_id nodes ;;
  attrs <- (match n_attributes kg_node with
            | Some a => Ok a | None => Err (KeyError "attributes") end) ;;
  keep <- check_attributes re_match cs attrs ;;
  Ok (if keep then acc else set_add node_id acc).

Definition mark_edge (constrained_edge_ids : dict (list attribute_constraint))
    (nodes_to_filter : list string) (acc : list string) (kv : string * kg_edge)
    : res (list string) :=
  let '(edge_id, edge) := kv in
  if smem (e_subject edge) nodes_to_filter || smem (e_object edge) nodes_to_filter
  then Ok (set_add edge_id acc)
  else
    match dget edge_id constrained_edge_ids with
    | Some cs =>
        keep <- check_attributes re_match cs (e_attributes edge) ;;
        Ok (if keep then acc else set_add edge_id acc)
    | None => Ok acc
    end.

Definition filter_result (nodes_to_filter edges_to_filter : list string)
    (acc : list trapi_result) (r : trapi_result) : list trapi_result :=
  let '(new_node_bindings, skip) := filter_bindings nodes_to_filter (node_bindings r) [] in
  if skip then acc else
  let new_analyses :=
    map (fun an => (an, filter_bindings edges_to_filter (edge_bindings an) [])) (analyses r) in
  if existsb (fun p => snd (snd p)) new_analyses then acc else
  (acc ++ [{| node_bindings := new_node_bindings;
              analyses := map (fun p => {| an_resource_id := an_resource_id (fst p);
                                            edge_bindings := fst (snd p) |}) new_analyses |}])%list.

Definition apply_attribute_constraints (m : message) : res message :=
  let ncs := node_constraints (m_query_graph m) in
  let ecs := edge_constraints (m_query_graph m) in
  if Nat.eqb (length ncs) 0 && Nat.eqb (length ecs) 0 then Ok m else
  ids <- res_fold (collect_constrained ncs ecs) ([], []) (m_results m) ;;
  let '(constrained_node_ids, constrained_edge_ids) := ids in
  nodes_to_filter <- res_fold (mark_node (kg_nodes m)) [] constrained_node_ids ;;
  edges_to_filter <- res_fold (mark_edge constrained_edge_ids nodes_to_filter) [] (kg_edges m) ;;
  let filtered_kg_nodes := filter (fun kv => negb (smem (fst kv) nodes_to_filter)) (kg_nodes m) in
  let filtered_kg_edges := filter (fun kv => negb (smem (fst kv) edges_to_filter)) (kg_edges m) in
  let filtered_bindings :=
    fold_left (filter_result nodes_to_filter edges_to_filter) (m_results m) [] in
  Ok {| m_query_graph := m_query_graph m;
        kg_nodes := filtered_kg_nodes;
        kg_edges := filtered_kg_edges;
        auxiliary_graphs := None;
        m_results := filtered_bindings |}.

End Constraints.

(** ** The attribute mapper: [Question.format_attribute_trapi] and
    [Question.transform_attributes] *)

(** Python's [sub in s]. *)
Fixpoint str_contains (sub s : string) : bool :=
  if String.prefix sub s then true
  else match s with EmptyString => false | String _ s' => str_contains sub s' end.

Definition edge_keys : list string := ["subject"; "predicate"; "object"; "sources"; "attributes"].
Definition node_keys : list string :=
  ["name"; "categories"; "is_set"; "members"; "provided_by"; "attributes"].

Section Mapper.

(** [skip_list], [VALUE_TYPES] and [get_attribute_bl_info] of the
    [attribute_mapping] module. *)
Variable skip_list : list string.
Variable value_types : string -> option string.
Variable get_attribute_bl_info : string -> option string.

Definition keep_attribute (props : list string) (a : attribute) : bool :=
  match original_attribute_name a with
  | None => true
  | Some o => negb (smem o props) && negb (smem o skip_list) && negb (str_contains "qualifie" o)
  end.

Definition format_attribute (a : attribute) : attribute :=
  let oname := match original_attribute_name a with Some o => o | None => "" end in
  let vt :=
    match value_type_id a with
    | Some v => if str_truthy v then v
                else match value_types oname with Some w => w | None => "EDAM:data_0006" end
    | None => match value_types oname with Some w => w | None => "EDAM:data_0006" end
    end in
  let tid :=
    if String.eqb (attribute_type_id a) "NA"
    then match get_attribute_bl_info oname with Some t => t | None => attribute_type_id a end
    else attribute_type_id a in
  {| attribute_type_id := tid; original_attribute_name := Some oname; a_value := a_value a;
     value_type_id := Some vt; attribute_source := attribute_source a |}.

Definition format_attributes (props : list string) (attrs : list attribute) : list attribute :=
  map format_attribute (filter (keep_attribute props) attrs).

(** The edges produced by [build_trapi_message] carry no qualifier
    attribute, so the qualifier lifting of [format_attribute_trapi] does
    not apply to them. *)
Definition format_edge (provenance : string) (kv : string * kg_edge) : res (string * kg_edge) :=
  let '(k, e) := kv in
  srcs <- construct_sources_tree provenance (e_sources e) ;;
  Ok (k, {| e_subject := e_subject e; e_predicate := e_predicate e; e_object := e_object e;
            e_sources := srcs;
            e_attributes := format_attributes edge_keys (e_attributes e) |}).

Definition format_node (kv : string * kg_node) : string * kg_node :=
  let '(k, n) := kv in
  (k, {| n_name := n_name n; n_categories := n_categories n; n_is_set := n_is_set n;
         n_members := n_members n; n_provided_by := n_provided_by n;
         n_attributes :=
           Some (format_attributes node_keys
                   (match n_attributes n with Some a => a | None => [] end)) |}).

Fixpoint res_map {A B : Type} (f : A -> res B) (l : list A) : res (list B) :=
  match l with
  | [] => Ok []
  | a :: l' => b <- f a ;; bs <- res_map f l' ;; Ok (b :: bs)
  end.

Definition transform_attributes (provenance : string) (m : message) : res message :=
  es <- res_map (format_edge provenance) (kg_edges m) ;;
  Ok {| m_query_graph := m_query_graph m;
        kg_nodes := map format_node (kg_nodes m);
        kg_edges := es;
        auxiliary_graphs := auxiliary_graphs m;
        m_results :=
          map (fun r => {| node_bindings := node_bindings r;
                           analyses := map (fun an => {| an_resource_id := provenance;
                                                         edge_bindings := edge_bindings an |})
                                          (analyses r) |}) (m_results m) |}.

End Mapper.

(** [self._question_json.update(trapi_message)]: the assembled response
    joined to the query graph of the question. *)
Definition merge_response (qg : query_graph) (st : build_state) : message :=
  {| m_query_graph := qg;
     kg_nodes := node_map st;
     kg_edges := edges st;
     auxiliary_graphs := Some (aux st);
     m_results := results st |}.

(** ** The entry point: [Question.answer] *)

(** Python's binding of keyword arguments to a signature whose parameters
    are all required (after [self]). *)
Definition bind_call (params kwargs : list string) : option pyerr :=
  match find (fun p => negb (smem p kwargs)) params with
  | Some p => Some (TypeError ("missing 1 required positional argument: '" ++ p ++ "'"))
  | None =>
      match find (fun k => negb (smem k params)) kwargs with
      | Some k => Some (TypeError ("got an unexpected keyword argument '" ++ k ++ "'"))
      | None => None
      end
  end.

(** [async def run_query(self, query_id, trapi_message, result_limit)]. *)
Definition run_query_params : list string := ["query_id"; "trapi_message"; "result_limit"].
(** [def build_trapi_message(trapi_message, result, provenance)]. *)
Definition build_trapi_message_params : list string := ["trapi_message"; "result"; "provenance"].

(** [Question.answer]: it calls
    [monarch_interface.run_query(trapi_message=..., result_limit=...)], and
    then [build_trapi_message(trapi_message=..., result=result)] on the
    returned value, which [run_query] produces as the pair
    [(result, logs)]; [build_trapi_message] reads [result["..."]] from it. *)
Definition Question_answer (post : semsim_query -> http_response)
    (question_json : query_graph) (result_limit : Z) : res message :=
  match bind_call run_query_params ["trapi_message"; "result_limit"] with
  | Some e => Err e
  | None =>
      (* [result] is the pair [(result, logs)]: ["error" in result] is False *)
      result <- phenotype_semsim_to_disease post (qg_nodes question_json) result_limit ;;
      match bind_call build_trapi_message_params ["trapi_message"; "result"] with
      | Some e => Err e
      | None => Err (TypeError "tuple indices must be integers or slices, not str")
      end
  end.

(** ** A concrete query: the two-term MCQ of the TRAPI 1.5 example *)

Definition scenario_set_id : string := "UUID:4403ddf2-f724-4b3b-a877-de08315b784f".

Definition mk_subject_qnode (si : string) : qnode :=
  {| is_set := Some true; set_interpretation_q := Some si;
     ids := Some [scenario_set_id];
     member_ids := Some ["HP:0002104"; "HP:0012378"];
     categories := Some ["biolink:PhenotypicFeature"];
     constraints := [] |}.

Definition diseases_qnode : qnode :=
  {| is_set := Some false; set_interpretation_q := None; ids := None; member_ids := None;
     categories := Some ["biolink:Disease"]; constraints := [] |}.

Definition mk_query_graph (si : string) (ecs : list attribute_constraint) : query_graph :=
  {| qg_nodes := [("phenotypes", mk_subject_qnode si); ("diseases", diseases_qnode)];
     qg_edges := [("e01", {| qe_subject := "phenotypes"; qe_object := "diseases";
                             attribute_constraints := ecs |})] |}.

Definition om (src src_label tgt tgt_label : string) (sc : Z) (anc : string) : object_match :=
  {| match_source := src; match_source_label := src_label; match_target := tgt;
     match_target_label := tgt_label; om_score := sc; ancestor_id := Some anc |}.

(** The top candidate matches both input terms; a second candidate matches
    only the first one. *)
Definition scenario_records : list semsim_record :=
  [{| subject := {| subject_id_s := "MONDO:0008807";
                    subject_name_s := "obsolete apnea, central sleep";
                    subject_category_s := "biolink:Disease";
                    subject_provided_by_s := Some "phenio_nodes" |};
      score := 13;
      object_best_matches :=
        Some [("HP:0002104", om "HP:0002104" "Apnea" "HP:0010535" "Sleep apnea" 9 "HP:0002104");
              ("HP:0012378", om "HP:0012378" "Fatigue" "HP:0012378" "Fatigue" 12 "HP:0012378")] |};
   {| subject := {| subject_id_s := "MONDO:0009122";
                    subject_name_s := "congenital central hypoventilation syndrome";
                    subject_category_s := "biolink:Disease";
                    subject_provided_by_s := Some "phenio_nodes" |};
      score := 10;
      object_best_matches :=
        Some [("HP:0002104", om "HP:0002104" "Apnea" "HP:0002104" "Apnea" 10 "HP:0002104")] |}].

Definition scenario_post (_ : semsim_query) : http_response :=
  {| status_code := 200; response_json := scenario_records |}.

Definition empty_post (_ : semsim_query) : http_response :=
  {| status_code := 200; response_json := [] |}.

(** An upstream response where both input terms are best matched by the
    same target HP:0010535, with the same score 9: the match of
    HP:0002104 comes first. *)
Definition tie_records : list semsim_record :=
  [{| subject := {| subject_id_s := "MONDO:0008807";
                    subject_name_s := "obsolete apnea, central sleep";
                    subject_category_s := "biolink:Disease";
                    subject_provided_by_s := Some "phenio_nodes" |};
      score := 13;
      object_best_matches :=
        Some [("HP:0002104", om "HP:0002104" "Apnea" "HP:0010535" "Sleep apnea" 9 "HP:0002104");
              ("HP:0012378", om "HP:0012378" "Fatigue" "HP:0010535" "Sleep apnea" 9 "HP:0012378")] |}].

Definition tie_post (_ : semsim_query) : http_response :=
  {| status_code := 200; response_json := tie_records |}.

Definition scenario_categories (c : string) : list string := [c; "biolink:NamedThing"].

Definition no_regex (_ _ : string) : res bool := Ok false.

Definition PROVENANCE : string := "infores:monarchinitiative".

(** The RESULT that [phenotype_semsim_to_disease] builds for the scenario. *)
Definition scenario_result (si : string) : res (option result_t) :=
  phenotype_semsim_to_disease scenario_post (qg_nodes (mk_query_graph si [])) 5.

(** The components of the pipeline, composed as [Question.answer] means to:
    run the query, assemble the response, join it to the question, map the
    attributes and apply the constraints. *)
Definition pipeline (re_match : string -> string -> res bool)
    (get_categories : string -> list string) (post : semsim_query -> http_response)
    (qg : query_graph) (result_limit : Z) : res (option message) :=
  o <- phenotype_semsim_to_disease post (qg_nodes qg) result_limit ;;
  match o with
  | None => Ok None
  | Some r =>
      b <- build_trapi_message get_categories qg r PROVENANCE ;;
      match b with
      | BuildError _ => Ok None
      | BuildOk st =>
          m1 <- transform_attributes [] (fun _ => None) (fun _ => None) PROVENANCE
                  (merge_response qg st) ;;
          m2 <- apply_attribute_constraints re_match m1 ;;
          Ok (Some m2)
      end
  end.

(** The shape of a returned message: node ids, edges as
    (id, subject, predicate, object), and the auxiliary graphs. *)
Definition message_summary (r : res (option message))
    : option (list string * list (string * string * string * string)
              * option (dict (list string))) :=
  match r with
  | Ok (Some m) =>
      Some (map fst (kg_nodes m),
            map (fun ke => (fst ke, e_subject (snd ke), e_predicate (snd ke), e_object (snd ke)))
                (kg_edges m),
            auxiliary_graphs m)
  | _ => None
  end.

(** The auxiliary-graph ids that the knowledge-graph edges declare in
    their [biolink:support_graphs] attributes. *)
Definition support_graph_refs (m : message) : list string :=
  flat_map (fun ke =>
    flat_map (fun a =>
      if String.eqb (attribute_type_id a) "biolink:support_graphs" then
        match a_value a with
        | VList l => flat_map (fun v => match v with VStr s => [s] | _ => [] end) l
        | _ => []
        end
      else [])
      (e_attributes (snd ke)))
    (kg_edges m).

(** The edge constraint of the concrete query: automated-agent edges only. *)
Definition agent_type_constraint : attribute_constraint :=
  mkConstraint "biolink:agent_type" "agent type" false equal_to (VStr "automated_agent").

(** [td] is the TermMatch of subject [k] that the deduplication keeps in
    [tds]: it has the highest score among the matches of subject [k], and
    every later match of subject [k] scores strictly lower (so among equal
    best scores it is the last one). *)
Definition last_best (tds : list term_data) (k : string) (td : term_data) : Prop :=
  exists pre post,
    tds = (pre ++ td :: post)%list /\ subject_id td = k /\
    (forall td', In td' (pre ++ post)%list -> subject_id td' = k -> td_score td' <= td_score td) /\
    (forall td', In td' post -> subject_id td' = k -> td_score td' < td_score td).

(** A cache entry built from [td] for the match target [k]: its query
    term and score, and its two edges, the match-to-input edge
    [k -similar_to-> query term] first, then the match-to-candidate edge
    into [k]. *)
Definition cache_entry_of (k : string) (td : term_data) (ce : cache_entry) : Prop :=
  ce_query_term ce = object_id td /\ ce_score ce = td_score td /\
  exists id1 e1 id2 e2,
    ce_edges ce = [(id1, e1); (id2, e2)] /\
    e_subject e1 = k /\ e_predicate e1 = "biolink:similar_to" /\
    e_object e1 = object_id td /\ e_object e2 = k.

(** Every edge of [es] has its subject and its object among the keys of
    the node map [nodes]. *)
Definition edges_closed (nodes : dict kg_node) (es : dict kg_edge) : Prop :=
  forall k e, In (k, e) es ->
    dmem (e_subject e) nodes = true /\ dmem (e_object e) nodes = true.

(** The edges of every cache entry of target [k] of candidate [p] lead
    from [k] or [p], to [k] or a node of [nm]. *)
Definition entries_ok (p : string) (nm : dict kg_node) (cache : dict cache_entry) : Prop :=
  forall k ce, In (k, ce) cache -> forall id e, In (id, e) (ce_edges ce) ->
    (e_subject e = k \/ e_subject e = p) /\ (e_object e = k \/ dmem (e_object e) nm = true).

(** The similarity result of the two-term MANY query, evaluated. *)
Definition scenario_many_result : option result_t :=
  Eval vm_compute in
    match scenario_result "MANY" with Ok o => o | Err _ => None end.

(** The RESULT of the scenario under a set interpretation, its start state
    (set node and member nodes, with [query_term_membership_edges]) and its
    candidate MONDO:0009122, which matches only HP:0002104. *)
Definition empty_result : result_t :=
  {| set_interpretation := ""; set_identifier := ""; query_terms := [];
     query_term_category := ""; primary_knowledge_source := "";
     ingest_knowledge_source := ""; match_predicate := ""; result_map := [] |}.

Definition scenario_r (si : string) : result_t :=
  match scenario_result si with Ok (Some r) => r | _ => empty_result end.

Definition scenario_start (r : result_t) : build_state * dict string :=
  fold_left (member_step scenario_categories r) (query_terms r)
    ({| node_map := [(set_identifier r, set_node scenario_categories r)]; edges := [];
        aux := []; results := []; edge_idx := 0 |}, []).

Definition partial_candidate (r : result_t) : result_entry :=
  match dget "MONDO:0009122" (result_map r) with
  | Some re => re
  | None => {| re_name := ""; re_category := ""; re_score := 0; re_provided_by := None;
               re_matches := [] |}
  end.


(** ** Decimal reading of the edge ids *)

Definition digit_val (c : ascii) : nat := (nat_of_ascii c - 48)%nat.

Fixpoint be_value (s : string) (acc : nat) : nat :=
  match s with
  | EmptyString => acc
  | String c s' => be_value s' (acc * 10 + digit_val c)%nat
  end.

(** ** Results that survive [apply_attribute_constraints] *)

Definition result_filtered (ntf etf : list string) (x : trapi_result) : Prop :=
  (forall q l, In (q, l) (node_bindings x) -> l <> [] /\ forall i, In i l -> smem i ntf = false) /\
  (forall an, In an (analyses x) ->
     forall q l, In (q, l) (edge_bindings an) -> l <> [] /\ forall i, In i l -> smem i etf = false).

(** ** The template builder: [Question.transform_schema_to_question_template] *)

Record template_node : Type := mkTemplateNode {
  tn_id : option string;
  tn_category : string
}.

Record template_edge : Type := mkTemplateEdge {
  te_subject : string;
  te_object : string;
  te_predicate : string
}.

Record template_graph : Type := mkTemplateGraph {
  tg_nodes : dict template_node;
  tg_edges : dict template_edge
}.

Section Templates.

(** The iteration order of [set(edge_set)]. *)
Variable py_set : list string -> list string.

(** The [for index, edge_type in enumerate(set(edge_set))] loop. *)
Definition template_edges (edge_set : list string) : dict template_edge :=
  snd (fold_left
         (fun (acc : nat * dict template_edge) edge_type =>
            let '(index, d) := acc in
            (S index,
             dset ("e" ++ nat_to_string index)
               {| te_subject := "n1"; te_object := "n2"; te_predicate := edge_type |} d))
         (py_set edge_set) (0%nat, [])).

Definition template_graph_of (source_type target_type : string) (edge_set : list string)
    : template_graph :=
  {| tg_nodes := [("n1", {| tn_id := None; tn_category := source_type |});
                  ("n2", {| tn_id := None; tn_category := target_type |})];
     tg_edges := template_edges edge_set |}.

(** One template per source type; [None] stands for the initial [dict()]
    and each template is the value of [question_graph] under the
    ['query_graph'] key. *)
Definition schema_step (acc : list (option template_graph) * option template_graph)
    (st : string * dict (list string)) : list (option template_graph) * option template_graph :=
  let '(templates, question_graph) := acc in
  let '(source_type, target_set) := st in
  let question_graph' :=
    fold_left (fun _ (te : string * list string) =>
                 Some (template_graph_of source_type (fst te) (snd te)))
      target_set question_graph in
  ((templates ++ [question_graph'])%list, question_graph').

Definition transform_schema_to_question_template (graph_schema : dict (dict (list string)))
    : list (option template_graph) :=
  fst (fold_left schema_step graph_schema ([], None)).

End Templates.

(** ** A message with one constrained query edge *)

Definition demo_qnode : qnode :=
  {| is_set := Some false; set_interpretation_q := None; ids := None; member_ids := None;
     categories := None; constraints := [] |}.

Definition demo_score_constraint : attribute_constraint :=
  {| c_id := "biolink:score"; c_name := "score"; c_negated := false;
     c_operator := greater_than; c_value := VNum 5 |}.

Definition demo_node : kg_node :=
  {| n_name := None; n_categories := ["biolink:NamedThing"]; n_is_set := None;
     n_members := None; n_provided_by := None; n_attributes := Some [] |}.

Definition demo_edge (o : string) (score : Z) : kg_edge :=
  {| e_subject := "A"; e_predicate := "biolink:similar_to"; e_object := o; e_sources := [];
     e_attributes := [attr "biolink:score" (VNum score)] |}.

Definition demo_result (o e : string) : trapi_result :=
  {| node_bindings := [("n0", ["A"]); ("n1", [o])];
     analyses := [{| an_resource_id := "infores:demo"; edge_bindings := [("e01", [e])] |}] |}.

Definition demo_constrained_message : message :=
  {| m_query_graph :=
       {| qg_nodes := [("n0", demo_qnode); ("n1", demo_qnode)];
          qg_edges := [("e01", {| qe_subject := "n0"; qe_object := "n1";
                                  attribute_constraints := [demo_score_constraint] |})] |};
     kg_nodes := [("A", demo_node); ("B", demo_node); ("C", demo_node)];
     kg_edges := [("E1", demo_edge "B" 3); ("E2", demo_edge "C" 9)];
     auxiliary_graphs := None;
     m_results := [demo_result "B" "E1"; demo_result "C" "E2"] |}.

Definition demo_re_match (_ _ : string) : res bool := Ok true.

(** ** Auxiliary predicates and inputs *)

(** The role groups built by the filtering loop: no role twice, no id
    twice within a role, and every id of role [role] comes from an input
    stub carrying that id with a role that normalises to [role]. *)
Definition groups_ok (sources : list source) (groups : dict (list string)) : Prop :=
  NoDup (map fst groups) /\
  forall role ids, In (role, ids) groups ->
    NoDup ids /\
    forall id, In id ids -> exists src r0,
      In src sources /\ resource_id src = Some (RStr id) /\ resource_role src = Some r0 /\
      normalize_role r0 = role.

Definition ill_formed_subject_qnode : qnode :=
  {| is_set := Some true; set_interpretation_q := Some "MANY";
     ids := Some ["HP:0002104"; "HP:0012378"]; member_ids := Some [];
     categories := Some ["biolink:PhenotypicFeature"]; constraints := [] |}.

Definition error_post (_ : semsim_query) : http_response :=
  {| status_code := 503; response_json := [] |}.

(** * Theorems *)

Example fmt_edge_id_7 : fmt_edge_id 7 = "e0007". Proof. reflexivity. Qed.
Example fmt_edge_id_1234 : fmt_edge_id 1234 = "e1234". Proof. reflexivity. Qed.

(** ** The similarity client *)

(** C7: whatever [result_limit] the caller passes, the body POSTed by
    [semsim_search] carries a [limit] in [[1, 50]]: a value outside the
    range (in particular 0) is sent as 50, a value inside it unchanged. *)
Theorem semsim_request_limit_clamped :
  forall (query_terms : list string) (g : SemsimSearchCategory) (result_limit : Z),
    (1 <= limit (semsim_request query_terms g result_limit) <= 50) /\
    ((result_limit < 1 \/ 50 < result_limit) ->
       limit (semsim_request query_terms g result_limit) = 50) /\
    (1 <= result_limit <= 50 ->
       limit (semsim_request query_terms g result_limit) = result_limit) /\
    limit (semsim_request query_terms g 0) = 50.
Proof.
  intros q g r; unfold semsim_request; simpl.
  destruct (r <? 1) eqn:H1; destruct (50 <? r) eqn:H2; simpl;
    rewrite ?Z.ltb_lt, ?Z.ltb_ge in *; repeat split; intros; lia.
Qed.

(** [semsim_search] hands exactly this body to the HTTP POST. *)
Lemma semsim_search_posts_request :
  forall post query_terms g result_limit,
    semsim_search post query_terms g result_limit =
    let response := post (semsim_request query_terms g result_limit) in
    if negb (status_code response =? 200)
    then Err (RuntimeError "Monarch SemSimian returned HTTP error code")
    else Ok (response_json response).
Proof. reflexivity. Qed.

(** ** Resource-role normalisation *)

(** On the three TRAPI resource roles, with or without the [biolink:]
    prefix, [lstrip("biolink:")] gives the role itself. *)
Lemma normalize_role_resource_roles :
  forall role,
    In role ["aggregator_knowledge_source"; "primary_knowledge_source"; "supporting_data_source"] ->
    normalize_role role = role /\ normalize_role ("biolink:" ++ role) = role.
Proof.
  intros role H; simpl in H.
  repeat destruct H as [<- | H]; try contradiction; split; reflexivity.
Qed.

(** C8: [lstrip("biolink:")] strips a character set, not the prefix: the
    role [biolink:original_knowledge_source] loses its leading [o] after the
    prefix, and the unprefixed [original_knowledge_source] is not left
    unchanged; [_construct_sources_tree] emits the corrupted role. *)
Theorem normalize_role_strips_characters :
  normalize_role "biolink:original_knowledge_source" = "riginal_knowledge_source" /\
  normalize_role "original_knowledge_source" = "riginal_knowledge_source" /\
  construct_sources_tree PROVENANCE [stub "infores:hpo-annotations" "biolink:original_knowledge_source"] =
  Ok [{| resource_id := Some (RStr "infores:hpo-annotations");
         resource_role := Some "riginal_knowledge_source";
         source_record_urls := None;
         upstream_resource_ids := None |};
      system_entry PROVENANCE None].
Proof. repeat split; reflexivity. Qed.

(** ** The query interpreter and the empty similarity response *)

(** A well-formed MCQ subject node (its category list included). *)
Definition well_formed_mcq_subject (n : qnode) : Prop :=
  is_set n = Some true /\
  (set_interpretation_q n = Some "MANY" \/ set_interpretation_q n = Some "ALL") /\
  (exists u, ids n = Some [u] /\ py_startswith (py_upper u) "UUID:" = true) /\
  (exists m ms, member_ids n = Some (m :: ms)) /\
  (exists c cs, categories n = Some (c :: cs) /\ c <> "").

Lemma mcq_subject_qnode_not_set :
  forall n, declares_mcq_set n = false -> mcq_subject_qnode n = Ok None.
Proof. intros n H; unfold mcq_subject_qnode; rewrite H; reflexivity. Qed.

Lemma mcq_subject_qnode_well_formed :
  forall n, well_formed_mcq_subject n ->
    exists c cs, categories n = Some (c :: cs) /\ c <> "" /\ mcq_subject_qnode n = Ok (Some c).
Proof.
  intros n (Hs & Hsi & (u & Hids & Hu) & (m & ms & Hm) & (c & cs & Hc & Hne)).
  exists c, cs; repeat split; auto.
  unfold mcq_subject_qnode, declares_mcq_set.
  rewrite Hs, Hids, Hm, Hc.
  destruct Hsi as [Hsi | Hsi]; rewrite Hsi; simpl; rewrite Hu; reflexivity.
Qed.

Lemma find_mcq_subject_app :
  forall pre k n rest,
    Forall (fun kv => declares_mcq_set (snd kv) = false) pre ->
    well_formed_mcq_subject n ->
    find_mcq_subject ((pre ++ (k, n) :: rest)%list) = Ok (Some n).
Proof.
  induction pre as [| [k' m] pre IH]; intros k n rest Hpre Hn; simpl.
  - destruct (mcq_subject_qnode_well_formed n Hn) as (c & cs & _ & Hne & ->).
    unfold str_truthy; destruct (String.eqb_spec c ""); [contradiction | reflexivity].
  - inversion Hpre as [| x l Hm Hpre' ]; subst; simpl in Hm.
    rewrite (mcq_subject_qnode_not_set m Hm); auto.
Qed.

(** C10: when the query graph holds a well-formed MCQ subject node (no
    earlier node declaring a MANY/ALL set) and the similarity search
    succeeds with an empty list, the guard [full_result[0]] raises
    [IndexError]: the operation fails instead of returning a result. *)
Theorem phenotype_semsim_empty_response_fails :
  forall (post : semsim_query -> http_response) (pre : dict qnode) (k : string)
         (n : qnode) (rest : dict qnode) (result_limit : Z),
    Forall (fun kv => declares_mcq_set (snd kv) = false) pre ->
    well_formed_mcq_subject n ->
    (forall q, post q = {| status_code := 200; response_json := [] |}) ->
    phenotype_semsim_to_disease post ((pre ++ (k, n) :: rest)%list) result_limit = Err IndexError.
Proof.
  intros post pre k n rest result_limit Hpre Hn Hpost.
  unfold phenotype_semsim_to_disease.
  rewrite (find_mcq_subject_app pre k n rest Hpre Hn); simpl.
  destruct Hn as (Hs & Hsi & (u & Hids & Hu) & (m & ms & Hm) & (c & cs & Hc & Hne)).
  destruct Hsi as [Hsi | Hsi]; rewrite Hsi, Hids, Hm; simpl;
    unfold semsim_search; rewrite Hpost; reflexivity.
Qed.

Lemma phenotype_semsim_empty_response_fails_witness :
  Forall (fun kv => declares_mcq_set (snd kv) = false) ([] : dict qnode) /\
  well_formed_mcq_subject (mk_subject_qnode "MANY") /\
  (forall q, empty_post q = {| status_code := 200; response_json := [] |}) /\
  phenotype_semsim_to_disease empty_post (([] ++ ("phenotypes", mk_subject_qnode "MANY")
                                          :: [("diseases", diseases_qnode)])%list) 5 = Err IndexError.
Proof.
  assert (Hwf : well_formed_mcq_subject (mk_subject_qnode "MANY")).
  { unfold well_formed_mcq_subject; simpl; repeat split; auto.
    - exists scenario_set_id; split; reflexivity.
    - exists "HP:0002104", ["HP:0012378"]; reflexivity.
    - exists "biolink:PhenotypicFeature", []; split; [reflexivity | discriminate]. }
  refine (conj (Forall_nil _) (conj Hwf (conj (fun q => eq_refl) _))).
  apply (phenotype_semsim_empty_response_fails empty_post [] "phenotypes"
           (mk_subject_qnode "MANY") [("diseases", diseases_qnode)] 5).
  - apply Forall_nil.
  - exact Hwf.
  - intro q; reflexivity.
Defined.

(** ** Attribute constraints: [check_attributes] *)

(** What [check_attributes] decides for one constraint: some attribute
    carries its id, and every attribute carrying its id satisfies it. *)
Definition constraint_holds_on (re_match : string -> string -> res bool)
    (attrs : list attribute) (c : attribute_constraint) : Prop :=
  (exists a, In a attrs /\ attribute_type_id a = c_id c) /\
  (forall a, In a attrs -> attribute_type_id a = c_id c ->
     check_attribute_constraint re_match c (a_value a) = Ok true).

Lemma check_constraint_attrs_true :
  forall re c attrs applied,
    check_constraint_attrs re c attrs applied = Ok (Some true) <->
    (applied = true \/ exists a, In a attrs /\ attribute_type_id a = c_id c) /\
    (forall a, In a attrs -> attribute_type_id a = c_id c ->
       check_attribute_constraint re c (a_value a) = Ok true).
Proof.
  intros re c attrs; induction attrs as [| a rest IH]; intro applied; simpl.
  - split.
    + intro H; inversion H; subst; split; [left; reflexivity | contradiction].
    + intros [[Ha | (a & [] & _)] _]; subst; reflexivity.
  - destruct (String.eqb_spec (attribute_type_id a) (c_id c)) as [Heq | Hne].
    + destruct (check_attribute_constraint re c (a_value a)) as [[|] | e] eqn:Hc; simpl.
      * rewrite IH; split.
        -- intros [_ Hall]; split; [right; exists a; auto |].
           intros a' [<- | Hin] Hid; auto.
        -- intros [_ Hall]; split; [left; reflexivity |].
           intros a' Hin Hid; auto.
      * split; [discriminate |].
        intros [_ Hall]; rewrite (Hall a (or_introl eq_refl) Heq) in Hc; discriminate.
      * split; [discriminate |].
        intros [_ Hall]; rewrite (Hall a (or_introl eq_refl) Heq) in Hc; discriminate.
    + rewrite IH; split.
      * intros [Hex Hall]; split.
        -- destruct Hex as [Ha | (a' & Hin & Hid)]; [left; exact Ha |].
           right; exists a'; split; [right; exact Hin | exact Hid].
        -- intros a' [<- | Hin] Hid; [contradiction | auto].
      * intros [Hex Hall]; split.
        -- destruct Hex as [Ha | (a' & [<- | Hin] & Hid)]; [left; exact Ha | contradiction |].
           right; exists a'; auto.
        -- intros a' Hin Hid; apply Hall; [right; exact Hin | exact Hid].
Qed.

Lemma check_constraint_attrs_total :
  forall re c attrs applied,
    (forall a, In a attrs -> exists b, check_attribute_constraint re c (a_value a) = Ok b) ->
    exists o, check_constraint_attrs re c attrs applied = Ok o.
Proof.
  intros re c attrs; induction attrs as [| a rest IH]; intros applied Hall; simpl.
  - eexists; reflexivity.
  - destruct (String.eqb (attribute_type_id a) (c_id c)).
    + destruct (Hall a (or_introl eq_refl)) as [b ->]; simpl.
      destruct b; [apply IH; intros a' Hin; apply Hall; right; exact Hin
                  | eexists; reflexivity].
    + apply IH; intros a' Hin; apply Hall; right; exact Hin.
Qed.

(** The per-constraint loop is exited early on a failing attribute, so
    [Some false] only comes from a constraint that no attribute carries. *)
Lemma check_constraint_attrs_false_unapplied :
  forall re c attrs,
    check_constraint_attrs re c attrs false = Ok (Some false) ->
    forall a, In a attrs -> attribute_type_id a <> c_id c.
Proof.
  intros re c attrs.
  assert (G : forall applied, check_constraint_attrs re c attrs applied = Ok (Some false) ->
                applied = false /\ forall a, In a attrs -> attribute_type_id a <> c_id c).
  { induction attrs as [| a rest IH]; intros applied H; simpl in H.
    - inversion H; split; [reflexivity | intros a []].
    - destruct (String.eqb_spec (attribute_type_id a) (c_id c)) as [Heq | Hne].
      + destruct (check_attribute_constraint re c (a_value a)) as [[|] | e]; simpl in H;
          try discriminate.
        destruct (IH true H) as [Hf _]; discriminate.
      + destruct (IH applied H) as [Ha Hall]; split; auto.
        intros a' [<- | Hin]; auto. }
  intros H; apply (G false H).
Qed.

Lemma check_attributes_true_iff :
  forall re cs attrs,
    check_attributes re cs attrs = Ok true <-> Forall (constraint_holds_on re attrs) cs.
Proof.
  intros re cs attrs; induction cs as [| c cs' IH]; simpl.
  - split; [intros _; constructor | reflexivity].
  - split.
    + destruct (check_constraint_attrs re c attrs false) as [[[|]|] | e] eqn:H; simpl;
        try discriminate.
      intro Hrest; constructor.
      * apply check_constraint_attrs_true in H as [[Hf | Hex] Hall]; [discriminate |].
        split; assumption.
      * apply IH; exact Hrest.
    + intro HF; inversion HF as [| x l [Hex Hall] Hrest]; subst.
      assert (H : check_constraint_attrs re c attrs false = Ok (Some true))
        by (apply check_constraint_attrs_true; split; [right |]; assumption).
      rewrite H; simpl; apply IH; exact Hrest.
Qed.

Lemma check_attributes_total :
  forall re cs attrs,
    (forall c a, In c cs -> In a attrs ->
       exists b, check_attribute_constraint re c (a_value a) = Ok b) ->
    exists b, check_attributes re cs attrs = Ok b.
Proof.
  intros re cs attrs; induction cs as [| c cs' IH]; intro Htot; simpl.
  - eexists; reflexivity.
  - destruct (check_constraint_attrs_total re c attrs false) as [o Ho].
    { intros a Hin; apply Htot; [left; reflexivity | exact Hin]. }
    rewrite Ho; simpl.
    destruct o as [[|]|]; try (eexists; reflexivity).
    apply IH; intros c' a Hc Ha; apply Htot; [right; exact Hc | exact Ha].
Qed.

(** C9 (as the code decides it): [check_attributes] returns [True] exactly
    when every constraint is carried by some attribute and holds on EVERY
    attribute carrying its id (a single failing attribute returns
    [False]); when no operator raises, it always returns, and returns
    [False] in particular when some constraint's id is carried by no
    attribute. *)
Theorem check_attributes_every_matching_attribute :
  forall (re : string -> string -> res bool) (cs : list attribute_constraint)
         (attrs : list attribute),
    (check_attributes re cs attrs = Ok true <-> Forall (constraint_holds_on re attrs) cs) /\
    ((forall c a, In c cs -> In a attrs ->
        exists b, check_attribute_constraint re c (a_value a) = Ok b) ->
     (forall c, In c cs -> (forall a, In a attrs -> attribute_type_id a <> c_id c) ->
        check_attributes re cs attrs = Ok false) /\
     exists b, check_attributes re cs attrs = Ok b /\
               (b = true <-> Forall (constraint_holds_on re attrs) cs)).
Proof.
  intros re cs attrs; split; [apply check_attributes_true_iff |].
  intro Htot.
  destruct (check_attributes_total re cs attrs Htot) as [b Hb].
  split.
  - intros c Hc Hnone; rewrite Hb; destruct b; [| reflexivity].
    apply check_attributes_true_iff in Hb.
    rewrite Forall_forall in Hb; destruct (Hb c Hc) as [(a & Ha & Hid) _].
    destruct (Hnone a Ha Hid).
  - exists b; split; [exact Hb |].
    rewrite <- check_attributes_true_iff, Hb; split; [intros -> | intro H; inversion H]; reflexivity.
Qed.

(** C9, counterexample: a [less_than 5] constraint on [biolink:score] and
    two score attributes, 1 and 10.  The attribute 10 satisfies the
    constraint (the operator tests [5 < 10]), yet [check_attributes]
    returns [False] because the attribute 1 does not. *)
Lemma check_attributes_one_matching_attribute_not_enough :
  let c := mkConstraint "biolink:score" "score" false less_than (VNum 5) in
  let attrs := [attr "biolink:score" (VNum 1); attr "biolink:score" (VNum 10)] in
  (exists a, In a attrs /\ attribute_type_id a = c_id c /\
             check_attribute_constraint no_regex c (a_value a) = Ok true) /\
  check_attributes no_regex [c] attrs = Ok false.
Proof.
  cbv zeta; split.
  - exists (attr "biolink:score" (VNum 10)); split; [right; left; reflexivity |].
    split; reflexivity.
  - reflexivity.
Qed.

(** ** The pipeline entry point [Question.answer] *)

(** The components chained as [run_query] and [build_trapi_message]
    define them, on the two-term MANY query: the set node, both member
    nodes and MONDO:0008807 are present, with the answer edge [e0007]
    MONDO:0008807 -similar_to-> set id, the two [member_of] edges, and the
    support graph [sg-e0007] holding a match-to-input and a
    match-to-candidate edge per matched term. *)
Lemma pipeline_scenario_many_graph :
  message_summary (pipeline no_regex scenario_categories scenario_post
                     (mk_query_graph "MANY" []) 5) =
  Some (["UUID:4403ddf2-f724-4b3b-a877-de08315b784f"; "HP:0002104"; "HP:0012378";
         "MONDO:0008807"; "HP:0010535"; "MONDO:0009122"],
        [("e0001", "HP:0002104", "biolink:member_of", scenario_set_id);
         ("e0002", "HP:0012378", "biolink:member_of", scenario_set_id);
         ("e0007", "MONDO:0008807", "biolink:similar_to", scenario_set_id);
         ("e0003", "HP:0010535", "biolink:similar_to", "HP:0002104");
         ("e0004", "MONDO:0008807", "biolink:has_phenotype", "HP:0010535");
         ("e0005", "HP:0012378", "biolink:similar_to", "HP:0012378");
         ("e0006", "MONDO:0008807", "biolink:has_phenotype", "HP:0012378");
         ("e0010", "MONDO:0009122", "biolink:similar_to", scenario_set_id);
         ("e0008", "HP:0002104", "biolink:similar_to", "HP:0002104");
         ("e0009", "MONDO:0009122", "biolink:has_phenotype", "HP:0002104")],
        Some [("sg-e0007", ["e0003"; "e0004"; "e0001"; "e0005"; "e0006"; "e0002"]);
              ("sg-e0010", ["e0008"; "e0009"; "e0001"])]).
Proof. vm_compute; reflexivity. Qed.

(** C1: [Question.answer] never returns a message.  It calls
    [run_query(trapi_message=..., result_limit=...)] while [run_query]
    requires [query_id] as well, so every call, on any query and any
    upstream response, raises [TypeError] before the similarity search. *)
Theorem Question_answer_missing_query_id :
  forall (post : semsim_query -> http_response) (question_json : query_graph)
         (result_limit : Z),
    Question_answer post question_json result_limit =
    Err (TypeError "missing 1 required positional argument: 'query_id'").
Proof. intros; reflexivity. Qed.

(** ** Support graphs after constraint filtering *)

(** Whenever a node or edge constraint is present, the message that
    [apply_attribute_constraints] returns has no [auxiliary_graphs]. *)
Lemma apply_attribute_constraints_no_auxiliary_graphs :
  forall re m m',
    (node_constraints (m_query_graph m) <> [] \/ edge_constraints (m_query_graph m) <> []) ->
    apply_attribute_constraints re m = Ok m' ->
    auxiliary_graphs m' = None.
Proof.
  intros re m m' Hc H; unfold apply_attribute_constraints in H.
  destruct (node_constraints (m_query_graph m)) as [| n ns] eqn:Hn;
  destruct (edge_constraints (m_query_graph m)) as [| e es] eqn:He;
    [destruct Hc as [Hc | Hc]; contradiction | | |]; simpl in H;
  (destruct (res_fold _ _ (m_results m)) as [[cn ce] | err]; simpl in H; [| discriminate];
   destruct (res_fold _ _ cn) as [ntf | err]; simpl in H; [| discriminate];
   destruct (res_fold _ _ (kg_edges m)) as [etf | err]; simpl in H; [| discriminate];
   inversion H; reflexivity).
Qed.

(** C6: on the two-term MANY query with the edge constraint
    [agent_type == automated_agent], the message returned to the client
    keeps answer edges whose [biolink:support_graphs] attributes name
    [sg-e0007] and [sg-e0010], while its [auxiliary_graphs] is gone: the
    returned dictionary of [apply_attribute_constraints] has no
    [auxiliary_graphs] key, so those references point to no graph. *)
Theorem constrained_message_drops_auxiliary_graphs :
  match pipeline no_regex scenario_categories scenario_post
          (mk_query_graph "MANY" [agent_type_constraint]) 5 with
  | Ok (Some m) =>
      support_graph_refs m = ["sg-e0007"; "sg-e0010"] /\ auxiliary_graphs m = None
  | _ => False
  end.
Proof. vm_compute; split; reflexivity. Qed.

(** ** Dictionary lemmas *)

Section DictLemmas.
Context {V : Type}.

Lemma dget_dset_eq : forall k (v : V) d, dget k (dset k v d) = Some v.
Proof.
  intros k v d; induction d as [| [k' v'] d IH]; simpl.
  - rewrite String.eqb_refl; reflexivity.
  - destruct (String.eqb_spec k k') as [-> | Hne]; simpl.
    + rewrite String.eqb_refl; reflexivity.
    + destruct (String.eqb_spec k k'); [contradiction | exact IH].
Qed.

Lemma dget_dset_neq :
  forall k k' (v : V) d, k' <> k -> dget k' (dset k v d) = dget k' d.
Proof.
  intros k k' v d Hne; induction d as [| [k'' v'] d IH]; simpl.
  - destruct (String.eqb_spec k' k); [contradiction | reflexivity].
  - destruct (String.eqb_spec k k'') as [-> | Hne']; simpl.
    + destruct (String.eqb_spec k' k''); [contradiction | reflexivity].
    + destruct (String.eqb k' k''); [reflexivity | exact IH].
Qed.

Lemma dmem_dset :
  forall k k' (v : V) d, dmem k' d = true -> dmem k' (dset k v d) = true.
Proof.
  intros k k' v d H; unfold dmem in *.
  destruct (String.eqb_spec k' k) as [-> | Hne].
  - rewrite dget_dset_eq; reflexivity.
  - rewrite dget_dset_neq; assumption.
Qed.

Lemma In_dset_fst :
  forall k k' (v : V) d, In k' (map fst (dset k v d)) -> k' = k \/ In k' (map fst d).
Proof.
  intros k k' v d; induction d as [| [k'' v'] d IH]; simpl.
  - intros [H | []]; left; symmetry; exact H.
  - destruct (String.eqb k k''); simpl.
    + intros [H | H]; right; [left; exact H | right; exact H].
    + intros [H | H]; [right; left; exact H |].
      destruct (IH H) as [H' | H']; [left; exact H' | right; right; exact H'].
Qed.

Lemma NoDup_dset :
  forall k (v : V) d, NoDup (map fst d) -> NoDup (map fst (dset k v d)).
Proof.
  intros k v d; induction d as [| [k'' v'] d IH]; simpl; intro Hnd.
  - constructor; [intros [] | constructor].
  - inversion Hnd as [| x l Hnin Hnd']; subst.
    destruct (String.eqb_spec k k'') as [-> | Hne]; simpl.
    + constructor; assumption.
    + constructor; [| apply IH; exact Hnd'].
      intro Hin; destruct (In_dset_fst k k'' v d Hin) as [H | H];
        [apply Hne; symmetry; exact H | contradiction].
Qed.

Lemma In_dget :
  forall k (v : V) d, NoDup (map fst d) -> In (k, v) d -> dget k d = Some v.
Proof.
  intros k v d; induction d as [| [k' v'] d IH]; simpl; intros Hnd Hin; [destruct Hin |].
  inversion Hnd as [| x l Hnin Hnd']; subst.
  destruct Hin as [Heq | Hin].
  - inversion Heq; subst; rewrite String.eqb_refl; reflexivity.
  - destruct (String.eqb_spec k k') as [-> | Hne].
    + exfalso; apply Hnin; apply (in_map fst) in Hin; exact Hin.
    + apply IH; assumption.
Qed.

End DictLemmas.

(** ** The TermMatch deduplication of [build_trapi_message] *)

(** One iteration either skips a match that scores below the cached one,
    or (re)places the cache entry of its subject by an entry built from it. *)
Lemma match_step_cache :
  forall r p src nm idx c s td nm' idx' c' s',
    match_step r p src (nm, idx, c, s) td = Ok (nm', idx', c', s') ->
    (c' = c /\ exists ce, dget (subject_id td) c = Some ce /\ td_score td < ce_score ce) \/
    (exists ce, c' = dset (subject_id td) ce c /\ cache_entry_of (subject_id td) td ce /\
       forall ce0, dget (subject_id td) c = Some ce0 -> ce_score ce0 <= td_score td).
Proof.
  intros r p src nm idx c s td nm' idx' c' s' H.
  unfold match_step in H.
  destruct (dget (subject_id td) c) as [ce |] eqn:Hg.
  - destruct (td_score td <? ce_score ce) eqn:Hlt.
    + left; inversion H; subst; split; [reflexivity |].
      exists ce; split; [reflexivity | apply Z.ltb_lt; exact Hlt].
    + right; destruct (dindex (object_id td) nm) as [nd | e]; simpl in H; [| discriminate].
      inversion H; subst; eexists; split; [reflexivity |]; split.
      * unfold cache_entry_of; simpl; split; [reflexivity | split; [reflexivity |]].
        do 4 eexists; repeat split; reflexivity.
      * intros ce0 H0; inversion H0; subst; apply Z.ltb_ge in Hlt; exact Hlt.
  - right; destruct (dindex (object_id td) nm) as [nd | e]; simpl in H; [| discriminate].
    inversion H; subst; eexists; split; [reflexivity |]; split.
    + unfold cache_entry_of; simpl; split; [reflexivity | split; [reflexivity |]].
      do 4 eexists; repeat split; reflexivity.
    + intros ce0 H0; discriminate.
Qed.

Lemma last_best_le :
  forall done k td0, last_best done k td0 ->
    forall td', In td' done -> subject_id td' = k -> td_score td' <= td_score td0.
Proof.
  intros done k td0 (pre & post & -> & Hk & Hle & _) td' Hin Hid.
  apply in_app_or in Hin as [Hin | [<- | Hin]].
  - apply Hle; [apply in_or_app; left; exact Hin | exact Hid].
  - lia.
  - apply Hle; [apply in_or_app; right; exact Hin | exact Hid].
Qed.

Lemma last_best_snoc :
  forall done k td0 td, last_best done k td0 ->
    (subject_id td = k -> td_score td < td_score td0) ->
    last_best (done ++ [td])%list k td0.
Proof.
  intros done k td0 td (pre & post & -> & Hk & Hle & Hlt) Htd.
  exists pre, (post ++ [td])%list; split; [rewrite <- app_assoc; reflexivity |].
  split; [exact Hk |]; split.
  - intros td' Hin Hid; rewrite app_assoc in Hin; apply in_app_or in Hin as [Hin | [<- | []]].
    + apply Hle; assumption.
    + apply Z.lt_le_incl; apply Htd; exact Hid.
  - intros td' Hin Hid; apply in_app_or in Hin as [Hin | [<- | []]].
    + apply Hlt; assumption.
    + apply Htd; exact Hid.
Qed.

Lemma last_best_new :
  forall done k td, subject_id td = k ->
    (forall td', In td' done -> subject_id td' = k -> td_score td' <= td_score td) ->
    last_best (done ++ [td])%list k td.
Proof.
  intros done k td Hk Hle; exists done, []; split; [reflexivity |].
  split; [exact Hk |]; split.
  - intros td' Hin; rewrite app_nil_r in Hin; apply Hle; exact Hin.
  - intros td' [].
Qed.

(** The invariant of the TermMatch loop over the matches processed so
    far ([done]): the cache has no duplicate key, holds an entry for the
    subject of every processed match, and the entry of each subject [k] is
    built from the match of [k] that [last_best] designates. *)
Lemma match_loop_invariant :
  forall r p src tds done nm idx c s nm' idx' c' s',
    NoDup (map fst c) ->
    (forall td, In td done -> dmem (subject_id td) c = true) ->
    (forall k ce, dget k c = Some ce -> exists td, last_best done k td /\ cache_entry_of k td ce) ->
    res_fold (match_step r p src) (nm, idx, c, s) tds = Ok (nm', idx', c', s') ->
    NoDup (map fst c') /\
    (forall td, In td (done ++ tds)%list -> dmem (subject_id td) c' = true) /\
    (forall k ce, dget k c' = Some ce ->
       exists td, last_best (done ++ tds)%list k td /\ cache_entry_of k td ce).
Proof.
  intros r p src tds; induction tds as [| td tds IH];
    intros done nm idx c s nm' idx' c' s' Hnd Hmem Hent H.
  - simpl in H; inversion H; subst; rewrite app_nil_r; auto.
  - change (bind (match_step r p src (nm, idx, c, s) td)
              (fun a => res_fold (match_step r p src) a tds) = Ok (nm', idx', c', s')) in H.
    destruct (match_step r p src (nm, idx, c, s) td) as [[[[nm1 idx1] c1] s1] | e] eqn:Hs;
      cbn [bind] in H; [| discriminate].
    assert (Happ : (done ++ td :: tds = (done ++ [td]) ++ tds)%list)
      by (rewrite <- app_assoc; reflexivity).
    rewrite Happ.
    apply (IH (done ++ [td])%list nm1 idx1 c1 s1 nm' idx' c' s'); [| | | exact H];
      destruct (match_step_cache r p src nm idx c s td nm1 idx1 c1 s1 Hs)
        as [[-> (ce & Hg & Hlt)] | (ce & -> & Hce & Hge)].
    + exact Hnd.
    + apply NoDup_dset; exact Hnd.
    + intros td' Hin; apply in_app_or in Hin as [Hin | [<- | []]]; [apply Hmem; exact Hin |].
      unfold dmem; rewrite Hg; reflexivity.
    + intros td' Hin; apply in_app_or in Hin as [Hin | [<- | []]].
      * apply dmem_dset; apply Hmem; exact Hin.
      * unfold dmem; rewrite dget_dset_eq; reflexivity.
    + intros k ce' Hg'; destruct (Hent k ce' Hg') as (td0 & Hlb & Hce').
      exists td0; split; [| exact Hce'].
      apply last_best_snoc; [exact Hlb |].
      intros Hk; subst k; rewrite Hg in Hg'; inversion Hg'; subst ce'.
      destruct Hce' as (_ & Hsc & _); rewrite <- Hsc; exact Hlt.
    + intros k ce' Hg'.
      destruct (String.eqb_spec k (subject_id td)) as [-> | Hne].
      * rewrite dget_dset_eq in Hg'; inversion Hg'; subst ce'.
        exists td; split; [| exact Hce].
        apply last_best_new; [reflexivity |].
        intros td' Hin Hid.
        specialize (Hmem td' Hin); rewrite Hid in Hmem; unfold dmem in Hmem.
        destruct (dget (subject_id td) c) as [ce0 |] eqn:Hg0; [| discriminate].
        destruct (Hent _ ce0 Hg0) as (td0 & Hlb & _ & Hsc & _).
        specialize (Hge ce0 eq_refl).
        pose proof (last_best_le done _ td0 Hlb td' Hin Hid); lia.
      * rewrite dget_dset_neq in Hg' by exact Hne.
        destruct (Hent k ce' Hg') as (td0 & Hlb & Hce').
        exists td0; split; [| exact Hce'].
        apply last_best_snoc; [exact Hlb |].
        intro Hk; symmetry in Hk; contradiction.
Qed.

(** C5 (as the code decides it): over the matches [tds] of one
    candidate, the match cache has one entry per match target; the entry
    of target [k] is built from the match that [last_best] designates: the
    highest-scoring match of [k], and among equal best scores the LAST one
    ([if term_data["score"] < cached_score: continue] replaces a cached
    match of equal score).  Each entry carries one match-to-input edge,
    whose subject is its key, so no two entries have match-to-input
    edges with the same subject.  (When the loop raises, nothing is
    returned.) *)
Theorem match_cache_keeps_last_best_match :
  forall (r : result_t) (primary_answer_term_id : string) (answer_sources : list source)
         (nm : dict kg_node) (idx : nat) (seen : dict bool) (tds : list term_data),
    match res_fold (match_step r primary_answer_term_id answer_sources)
            (nm, idx, [], seen) tds with
    | Ok (_, _, cache, _) =>
        NoDup (map fst cache) /\
        (forall td, In td tds -> dmem (subject_id td) cache = true) /\
        (forall k ce, In (k, ce) cache ->
           exists td, last_best tds k td /\ cache_entry_of k td ce) /\
        (forall k1 ce1 id1 e1 f1 k2 ce2 id2 e2 f2,
           In (k1, ce1) cache -> In (k2, ce2) cache ->
           ce_edges ce1 = [(id1, e1); f1] -> ce_edges ce2 = [(id2, e2); f2] ->
           e_subject e1 = e_subject e2 -> k1 = k2 /\ ce1 = ce2)
    | Err _ => True
    end.
Proof.
  intros r p src nm idx seen tds.
  destruct (res_fold (match_step r p src) (nm, idx, [], seen) tds)
    as [[[[nm' idx'] cache] seen'] | e] eqn:H; [| exact I].
  destruct (match_loop_invariant r p src tds [] nm idx [] seen nm' idx' cache seen')
    as (Hnd & Hmem & Hent); [constructor | intros td [] | intros k ce Hg; discriminate | exact H |].
  assert (Hin : forall k ce, In (k, ce) cache ->
                  exists td, last_best tds k td /\ cache_entry_of k td ce).
  { intros k ce Hkc; apply Hent; apply In_dget; assumption. }
  split; [exact Hnd |]; split; [exact Hmem |]; split; [exact Hin |].
  intros k1 ce1 id1 e1 f1 k2 ce2 id2 e2 f2 H1 H2 He1 He2 Hs.
  destruct (Hin k1 ce1 H1) as (td1 & _ & _ & _ & a1 & x1 & b1 & y1 & Hx1 & Hs1 & _).
  destruct (Hin k2 ce2 H2) as (td2 & _ & _ & _ & a2 & x2 & b2 & y2 & Hx2 & Hs2 & _).
  rewrite He1 in Hx1; rewrite He2 in Hx2.
  assert (Hk : k1 = k2).
  { injection Hx1 as _ Hex1 _; injection Hx2 as _ Hex2 _.
    rewrite <- Hs1, <- Hs2, <- Hex1, <- Hex2; exact Hs. }
  rewrite <- Hk in H2 |- *; split; [reflexivity |].
  apply In_dget in H1; [| exact Hnd]; apply In_dget in H2; [| exact Hnd]; congruence.
Qed.

(** C5, counterexample: both input terms are best matched by HP:0010535
    with the same score 9, the match of HP:0002104 first.  The message
    keeps the LATER match: the only match-to-input edge out of HP:0010535
    points to HP:0012378, and the support graph of the answer edge holds
    [e0005] and [e0006], built from the second match, not the edges of the
    first-seen one. *)
Lemma equal_scores_keep_later_match :
  message_summary (pipeline no_regex scenario_categories tie_post
                     (mk_query_graph "MANY" []) 5) =
  Some (["UUID:4403ddf2-f724-4b3b-a877-de08315b784f"; "HP:0002104"; "HP:0012378";
         "MONDO:0008807"; "HP:0010535"],
        [("e0001", "HP:0002104", "biolink:member_of", scenario_set_id);
         ("e0002", "HP:0012378", "biolink:member_of", scenario_set_id);
         ("e0007", "MONDO:0008807", "biolink:similar_to", scenario_set_id);
         ("e0005", "HP:0010535", "biolink:similar_to", "HP:0012378");
         ("e0006", "MONDO:0008807", "biolink:has_phenotype", "HP:0010535")],
        Some [("sg-e0007", ["e0005"; "e0006"; "e0002"])]).
Proof. vm_compute; reflexivity. Qed.

(** ** The sources tree: [Question._construct_sources_tree] *)

(** On the sources of the composition example (one primary source and two
    supporting sources, all with string ids), the primary entry lists the
    two supporting ids as upstreams and the appended system aggregator
    entry lists the primary id. *)
Lemma construct_sources_tree_string_ids_example :
  construct_sources_tree PROVENANCE
    [stub "infores:semsimian-kp" "primary_knowledge_source";
     stub "infores:hpo-annotations" "supporting_data_source";
     stub "infores:upheno" "supporting_data_source"] =
  Ok [{| resource_id := Some (RStr "infores:semsimian-kp");
         resource_role := Some "primary_knowledge_source";
         source_record_urls := None;
         upstream_resource_ids := Some ["infores:hpo-annotations"; "infores:upheno"] |};
      {| resource_id := Some (RStr "infores:hpo-annotations");
         resource_role := Some "supporting_data_source";
         source_record_urls := None; upstream_resource_ids := None |};
      {| resource_id := Some (RStr "infores:upheno");
         resource_role := Some "supporting_data_source";
         source_record_urls := None; upstream_resource_ids := None |};
      system_entry PROVENANCE (Some ["infores:semsimian-kp"])].
Proof. vm_compute; reflexivity. Qed.

Lemma construct_sources_tree_empty :
  forall provenance, construct_sources_tree provenance [] = Ok [system_entry provenance None].
Proof. reflexivity. Qed.

(** C2: a stub whose [resource_id] is a non-empty list (the case the loop
    means to expand, [elif isinstance(source["resource_id"], list)]) makes
    [_construct_sources_tree] raise: the id is first used as a key of
    [source_record_urls_to_resource_id], and a list is unhashable.  No
    sources tree is returned for such an input. *)
Theorem construct_sources_tree_list_resource_id_raises :
  forall (provenance x : string) (xs : list string) (role : string)
         (urls ups : option (list string)) (rest : list source),
    str_truthy role = true ->
    construct_sources_tree provenance
      ({| resource_id := Some (RList (x :: xs)); resource_role := Some role;
          source_record_urls := urls; upstream_resource_ids := ups |} :: rest) =
    Err (TypeError "unhashable type: 'list'").
Proof.
  intros provenance x xs role urls ups rest Hrole.
  unfold construct_sources_tree; simpl; rewrite Hrole; reflexivity.
Qed.

Lemma construct_sources_tree_list_resource_id_raises_witness :
  str_truthy "supporting_data_source" = true /\
  construct_sources_tree PROVENANCE
    [{| resource_id := Some (RList ["infores:hpo-annotations"; "infores:upheno"]);
        resource_role := Some "supporting_data_source";
        source_record_urls := None; upstream_resource_ids := None |};
     stub "infores:semsimian-kp" "primary_knowledge_source"] =
  Err (TypeError "unhashable type: 'list'").
Proof.
  split; [reflexivity |].
  apply (construct_sources_tree_list_resource_id_raises PROVENANCE "infores:hpo-annotations"
           ["infores:upheno"] "supporting_data_source" None None
           [stub "infores:semsimian-kp" "primary_knowledge_source"]).
  reflexivity.
Defined.

(** ** Edges of the knowledge graph lead between its nodes *)

Lemma res_fold_invariant :
  forall {A B : Type} (P : A -> Prop) (f : A -> B -> res A) (l : list B) (acc out : A),
    P acc ->
    (forall a b a', In b l -> P a -> f a b = Ok a' -> P a') ->
    res_fold f acc l = Ok out -> P out.
Proof.
  intros A B P f l; induction l as [| b l IH]; intros acc out Hacc Hstep H; simpl in H.
  - inversion H; subst; exact Hacc.
  - destruct (f acc b) as [a' | e] eqn:Hf; simpl in H; [| discriminate].
    apply (IH a'); [apply (Hstep acc b a'); [left; reflexivity | exact Hacc | exact Hf] | | exact H].
    intros a b' a'' Hin; apply Hstep; right; exact Hin.
Qed.

Section DictLemmas2.
Context {V : Type}.

Lemma In_dset_inv :
  forall k k0 (v v0 : V) d, In (k, v) (dset k0 v0 d) -> (k = k0 /\ v = v0) \/ In (k, v) d.
Proof.
  intros k k0 v v0 d; induction d as [| [k' v'] d IH]; simpl.
  - intros [H | []]; inversion H; left; split; reflexivity.
  - destruct (String.eqb_spec k0 k') as [-> | Hne]; simpl.
    + intros [H | H]; [inversion H; left; split; reflexivity | right; right; exact H].
    + intros [H | H]; [right; left; exact H |].
      destruct (IH H) as [H' | H']; [left; exact H' | right; right; exact H'].
Qed.

Lemma In_fold_dset :
  forall (l : list (string * V)) d k v,
    In (k, v) (fold_left (fun acc e => dset (fst e) (snd e) acc) l d) -> In (k, v) d \/ In (k, v) l.
Proof.
  induction l as [| [k0 v0] l IH]; intros d k v H; simpl in H.
  - left; exact H.
  - destruct (IH _ _ _ H) as [H' | H'].
    + destruct (In_dset_inv _ _ _ _ _ H') as [[-> ->] | H''];
        [right; left; reflexivity | left; exact H''].
    + right; right; exact H'.
Qed.

Lemma dmem_dset_self : forall k (v : V) d, dmem k (dset k v d) = true.
Proof. intros; unfold dmem; rewrite dget_dset_eq; reflexivity. Qed.

End DictLemmas2.

Lemma dindex_dmem :
  forall {V : Type} k (d : dict V) v, dindex k d = Ok v -> dmem k d = true.
Proof.
  intros V k d v H; unfold dindex, dmem in *; destruct (dget k d); [reflexivity | discriminate].
Qed.

Lemma entries_ok_mono :
  forall p nm nm' c, entries_ok p nm c ->
    (forall x, dmem x nm = true -> dmem x nm' = true) -> entries_ok p nm' c.
Proof.
  intros p nm nm' c H Hm k ce Hin id e He.
  destruct (H k ce Hin id e He) as [Hs [Ho | Ho]]; split; auto.
Qed.

Lemma match_step_entries_ok :
  forall r p src nm idx c s td nm' idx' c' s',
    entries_ok p nm c ->
    match_step r p src (nm, idx, c, s) td = Ok (nm', idx', c', s') ->
    (forall x, dmem x nm = true -> dmem x nm' = true) /\ entries_ok p nm' c'.
Proof.
  intros r p src nm idx c s td nm' idx' c' s' Hok H.
  unfold match_step in H.
  destruct (dget (subject_id td) c) as [ce0 |];
    [destruct (td_score td <? ce_score ce0) |].
  1: inversion H; subst; split; [auto | exact Hok].
  all: destruct (dindex (object_id td) nm) as [nd | e] eqn:Hd; cbn [bind] in H; [| discriminate];
    injection H as Hnm _ Hc _;
    apply dindex_dmem in Hd;
    assert (Hm : forall x, dmem x nm = true -> dmem x nm' = true)
      by (intros x Hx; rewrite <- Hnm; destruct (n_name nd); [exact Hx | apply dmem_dset; exact Hx]);
    subst c'; split; [exact Hm |];
    intros k ce Hin id e He;
    (destruct (In_dset_inv _ _ _ _ _ Hin) as [[-> ->] | Hin'];
     [ simpl in He; destruct He as [He | [He | []]]; inversion He; subst; simpl;
       [ split; [left; reflexivity | right; apply Hm; exact Hd]
       | split; [right; reflexivity | left; reflexivity] ]
     | exact (entries_ok_mono p nm _ c Hok Hm k ce Hin' id e He) ]).
Qed.

Lemma edges_closed_mono :
  forall nm nm' es, edges_closed nm es ->
    (forall x, dmem x nm = true -> dmem x nm' = true) -> edges_closed nm' es.
Proof.
  intros nm nm' es H Hm k e Hin; destruct (H k e Hin); split; auto.
Qed.

Lemma support_step_closed :
  forall get_categories membership p nm0 cache nm es sg k ce nm' es' sg',
    entries_ok p nm0 cache -> In (k, ce) cache ->
    (forall x, dmem x nm0 = true -> dmem x nm = true) -> edges_closed nm es -> dmem p nm = true ->
    support_step get_categories membership (nm, es, sg) (k, ce) = Ok (nm', es', sg') ->
    (forall x, dmem x nm0 = true -> dmem x nm' = true) /\ edges_closed nm' es' /\ dmem p nm' = true.
Proof.
  intros get_categories membership p nm0 cache nm es sg k ce nm' es' sg'
    Hok Hin Hsub Hcl Hp H.
  unfold support_step in H.
  destruct (dindex (ce_query_term ce) membership) as [mid | e]; cbn [bind] in H; [| discriminate].
  injection H as Hnm Hes _.
  assert (Hm : forall x, dmem x nm = true -> dmem x nm' = true).
  { intros x Hx; rewrite <- Hnm; destruct (dmem k nm); [exact Hx | apply dmem_dset; exact Hx]. }
  assert (Hk : dmem k nm' = true).
  { rewrite <- Hnm; destruct (dmem k nm) eqn:Hkm; [exact Hkm | apply dmem_dset_self]. }
  split; [intros x Hx; apply Hm, Hsub, Hx |]; split; [| apply Hm, Hp].
  intros id e Hie; rewrite <- Hes in Hie.
  destruct (In_fold_dset _ _ _ _ Hie) as [Hold | Hnew].
  - destruct (Hcl id e Hold); split; apply Hm; assumption.
  - destruct (Hok k ce Hin id e Hnew) as [[Hs | Hs] [Ho | Ho]]; rewrite ?Hs, ?Ho;
      split; try exact Hk; try (apply Hm, Hp); apply Hm, Hsub, Ho.
Qed.

Lemma match_loop_entries_ok :
  forall r p src tds nm0 idx0 seen0 nm idx cache seen,
    res_fold (match_step r p src) (nm0, idx0, [], seen0) tds = Ok (nm, idx, cache, seen) ->
    (forall x, dmem x nm0 = true -> dmem x nm = true) /\ entries_ok p nm cache.
Proof.
  intros r p src tds nm0 idx0 seen0 nm idx cache seen H.
  refine (res_fold_invariant
            (fun a : match_loop_state =>
               let '(nm', _, c', _) := a in
               (forall x, dmem x nm0 = true -> dmem x nm' = true) /\ entries_ok p nm' c')
            _ tds _ _ _ _ H).
  - split; [auto | intros k ce []].
  - intros [[[nma idxa] ca] sa] td [[[nmb idxb] cb] sb] _ [Hsub Hok] Hs.
    destruct (match_step_entries_ok r p src nma idxa ca sa td nmb idxb cb sb Hok Hs) as [Hm Hok'].
    split; [intros x Hx; apply Hm, Hsub, Hx | exact Hok'].
Qed.

Lemma candidate_step_closed :
  forall get_categories r provenance sk ok membership st kv st',
    edges_closed (node_map st) (edges st) -> dmem (set_identifier r) (node_map st) = true ->
    candidate_step get_categories r provenance sk ok membership st kv = Ok st' ->
    edges_closed (node_map st') (edges st') /\ dmem (set_identifier r) (node_map st') = true.
Proof.
  intros get_categories r provenance sk ok membership st [p re] st' Hcl Hset H.
  unfold candidate_step in H.
  destruct (match_loop r p re (node_map st) (edge_idx st))
    as [[[[nm idx] cache] seen] | e] eqn:Hloop; cbn [bind] in H; [| discriminate].
  unfold match_loop in Hloop.
  destruct (match_loop_entries_ok r p _ _ _ _ _ nm idx cache seen Hloop) as [Hsub Hok].
  destruct (String.eqb (set_interpretation r) "ALL" && negb (forallb snd seen)).
  - injection H as <-; simpl; split; [apply (edges_closed_mono (node_map st)); assumption |].
    apply Hsub, Hset.
  - destruct (if dmem p nm then Ok nm else _) as [nm1 | e] eqn:Hnm1; cbn [bind] in H;
      [| discriminate].
    assert (Hm1 : (forall x, dmem x nm = true -> dmem x nm1 = true) /\ dmem p nm1 = true).
    { destruct (dmem p nm) eqn:Hp.
      - injection Hnm1 as <-; split; [auto | exact Hp].
      - destruct (re_provided_by re); cbn [bind] in Hnm1; [| discriminate].
        injection Hnm1 as <-; split; [intros x Hx; apply dmem_dset, Hx | apply dmem_dset_self]. }
    destruct Hm1 as [Hm1 Hp1].
    set (es1 := dset _ _ (edges st)) in H.
    destruct (res_fold (support_step get_categories membership) (nm1, es1, []) cache)
      as [[[nm2 es2] sg] | e] eqn:Hsup; cbn [bind] in H; [| discriminate].
    injection H as <-; simpl.
    assert (Hinv : (forall x, dmem x nm = true -> dmem x nm2 = true) /\
                   edges_closed nm2 es2 /\ dmem p nm2 = true).
    { refine (res_fold_invariant
                (fun a : dict kg_node * dict kg_edge * list string =>
                   let '(nmx, esx, _) := a in
                   (forall x, dmem x nm = true -> dmem x nmx = true) /\
                   edges_closed nmx esx /\ dmem p nmx = true)
                _ cache _ _ _ _ Hsup).
      - split; [exact Hm1 |]; split; [| exact Hp1].
        intros k e Hin; unfold es1 in Hin.
        destruct (In_dset_inv _ _ _ _ _ Hin) as [[_ ->] | Hold]; simpl.
        + split; [exact Hp1 | apply Hm1, Hsub, Hset].
        + destruct (Hcl k e Hold); split; apply Hm1, Hsub; assumption.
      - intros [[nma esa] sga] [k ce] [[nmb esb] sgb] Hin [Hs [Hc Hp]] Hst.
        exact (support_step_closed get_categories membership p nm cache nma esa sga k ce
                 nmb esb sgb Hok Hin Hs Hc Hp Hst). }
    destruct Hinv as (Hs2 & Hc2 & _); split; [exact Hc2 | apply Hs2, Hsub, Hset].
Qed.

Lemma member_fold_closed :
  forall get_categories r terms acc,
    edges_closed (node_map (fst acc)) (edges (fst acc)) ->
    dmem (set_identifier r) (node_map (fst acc)) = true ->
    edges_closed (node_map (fst (fold_left (member_step get_categories r) terms acc)))
                 (edges (fst (fold_left (member_step get_categories r) terms acc))) /\
    dmem (set_identifier r)
      (node_map (fst (fold_left (member_step get_categories r) terms acc))) = true.
Proof.
  intros get_categories r terms; induction terms as [| t terms IH]; intros [st membership] Hcl Hset;
    simpl; [split; assumption |].
  apply IH; simpl.
  - intros k e Hin; destruct (In_dset_inv _ _ _ _ _ Hin) as [[_ ->] | Hold]; simpl.
    + split; [apply dmem_dset_self | apply dmem_dset, Hset].
    + destruct (Hcl k e Hold); split; apply dmem_dset; assumption.
  - apply dmem_dset, Hset.
Qed.

(** The knowledge graph assembled by [build_trapi_message]: every edge
    leads between nodes of the graph. *)
Lemma build_trapi_message_edges_closed :
  forall get_categories qg r provenance st,
    build_trapi_message get_categories qg r provenance = Ok (BuildOk st) ->
    edges_closed (node_map st) (edges st).
Proof.
  intros get_categories qg r provenance st H.
  unfold build_trapi_message in H.
  destruct (Nat.eqb (length (qg_nodes qg)) 0 || Nat.ltb 2 (length (qg_nodes qg)));
    [discriminate |].
  destruct (qnode_keys (qg_nodes qg) "n0" "n1") as [[sk ok] | [] ]; try discriminate.
  match type of H with
  | context [fold_left (member_step get_categories r) (query_terms r) ?init] =>
      pose proof (member_fold_closed get_categories r (query_terms r) init) as Hmf;
      destruct (fold_left (member_step get_categories r) (query_terms r) init)
        as [st1 membership] eqn:Hf
  end.
  simpl in Hmf.
  destruct Hmf as [Hcl1 Hset1];
    [intros k e [] | cbv [node_map dmem dget]; rewrite String.eqb_refl; reflexivity |].
  destruct (res_fold (candidate_step get_categories r provenance sk ok membership) st1 (result_map r))
    as [st2 | e] eqn:Hc; cbn [bind] in H; [| discriminate].
  injection H as <-.
  refine (proj1 (res_fold_invariant
                   (fun s => edges_closed (node_map s) (edges s) /\
                             dmem (set_identifier r) (node_map s) = true)
                   _ (result_map r) st1 st2 (conj Hcl1 Hset1) _ Hc)).
  intros a kv a' _ [Ha Hs] Hst; exact (candidate_step_closed get_categories r provenance sk ok
                                          membership a kv a' Ha Hs Hst).
Qed.

Lemma dmem_map_key :
  forall {V W : Type} (f : string * V -> string * W) (d : dict V) x,
    (forall kv, fst (f kv) = fst kv) -> dmem x (map f d) = dmem x d.
Proof.
  intros V W f d x Hf; induction d as [| [k v] d IH]; [reflexivity |].
  unfold dmem in *; simpl; destruct (f (k, v)) as [k' w] eqn:Hkv.
  specialize (Hf (k, v)); rewrite Hkv in Hf; simpl in Hf; subst k'.
  destruct (String.eqb x k); [reflexivity | exact IH].
Qed.

Lemma res_map_format_edge :
  forall skip_list value_types get_attribute_bl_info provenance es es' k e',
    res_map (format_edge skip_list value_types get_attribute_bl_info provenance) es = Ok es' ->
    In (k, e') es' ->
    exists e, In (k, e) es /\ e_subject e' = e_subject e /\ e_object e' = e_object e.
Proof.
  intros skip_list value_types get_attribute_bl_info provenance es; induction es as [| [k0 e0] es IH]; intros es' k e' H Hin;
    simpl in H.
  - inversion H; subst; destruct Hin.
  - destruct (construct_sources_tree provenance (e_sources e0)) as [srcs | err];
      cbn [bind] in H; [| discriminate].
    destruct (res_map (format_edge skip_list value_types get_attribute_bl_info provenance) es)
      as [es1 | err] eqn:Hes;
      cbn [bind] in H; [| discriminate].
    injection H as <-; destruct Hin as [Heq | Hin].
    + injection Heq as <- <-; exists e0; split; [left; reflexivity | split; reflexivity].
    + destruct (IH es1 k e' eq_refl Hin) as (e & Hin' & Hs & Ho).
      exists e; split; [right; exact Hin' | split; assumption].
Qed.

Lemma transform_attributes_edges_closed :
  forall skip_list value_types get_attribute_bl_info provenance m m',
    edges_closed (kg_nodes m) (kg_edges m) ->
    transform_attributes skip_list value_types get_attribute_bl_info provenance m = Ok m' ->
    edges_closed (kg_nodes m') (kg_edges m').
Proof.
  intros skip_list value_types get_attribute_bl_info provenance m m' Hcl H.
  unfold transform_attributes in H.
  destruct (res_map (format_edge skip_list value_types get_attribute_bl_info provenance)
              (kg_edges m)) as [es | err] eqn:Hes;
    cbn [bind] in H; [| discriminate].
  injection H as <-; simpl.
  intros k e' Hin.
  destruct (res_map_format_edge skip_list value_types get_attribute_bl_info provenance
              _ _ k e' Hes Hin) as (e & Hin' & Hs & Ho).
  rewrite Hs, Ho, !dmem_map_key by (intros [? ?]; reflexivity).
  exact (Hcl k e Hin').
Qed.

Lemma smem_set_add :
  forall x y s, smem x s = true \/ x = y -> smem x (set_add y s) = true.
Proof.
  intros x y s H; unfold set_add, smem in *.
  destruct (existsb (String.eqb y) s) eqn:Hy.
  - destruct H as [H | ->]; [exact H | exact Hy].
  - rewrite existsb_app; apply orb_true_iff; destruct H as [H | ->]; [left; exact H |].
    right; simpl; rewrite String.eqb_refl; reflexivity.
Qed.

Lemma mark_edge_fold :
  forall re ce ntf es acc etf,
    res_fold (mark_edge re ce ntf) acc es = Ok etf ->
    (forall x, smem x acc = true -> smem x etf = true) /\
    (forall k e, In (k, e) es -> smem (e_subject e) ntf || smem (e_object e) ntf = true ->
       smem k etf = true).
Proof.
  intros re ce ntf es; induction es as [| [k0 e0] es IH]; intros acc etf H; cbn [res_fold] in H.
  - inversion H; subst; split; [auto | intros k e []].
  - destruct (mark_edge re ce ntf acc (k0, e0)) as [acc1 | err] eqn:Hm;
      cbn [bind] in H; [| discriminate].
    destruct (IH acc1 etf H) as [Hmono Hall].
    assert (Hsub : forall x, smem x acc = true -> smem x acc1 = true).
    { intros x Hx; unfold mark_edge in Hm.
      destruct (smem (e_subject e0) ntf || smem (e_object e0) ntf).
      - injection Hm as <-; apply smem_set_add; left; exact Hx.
      - destruct (dget k0 ce) as [cs |].
        + destruct (check_attributes re cs (e_attributes e0)) as [[|] | err];
            cbn [bind] in Hm; try discriminate; injection Hm as <-;
            [exact Hx | apply smem_set_add; left; exact Hx].
        + injection Hm as <-; exact Hx. }
    split; [intros x Hx; apply Hmono, Hsub, Hx |].
    intros k e [Heq | Hin] Hadj; [| apply (Hall k e Hin Hadj)].
    injection Heq as <- <-; apply Hmono; unfold mark_edge in Hm; rewrite Hadj in Hm.
    injection Hm as <-; apply smem_set_add; right; reflexivity.
Qed.

Lemma dmem_filter_keep :
  forall {V : Type} (d : dict V) ntf x,
    dmem x d = true -> smem x ntf = false ->
    dmem x (filter (fun kv => negb (smem (fst kv) ntf)) d) = true.
Proof.
  intros V d ntf x; induction d as [| [k v] d IH]; intros Hx Hn; [discriminate |].
  unfold dmem in *; simpl in *.
  destruct (String.eqb_spec x k) as [-> | Hne].
  - rewrite Hn; simpl; rewrite String.eqb_refl; reflexivity.
  - destruct (smem k ntf); simpl; [apply IH; assumption |].
    destruct (String.eqb_spec x k); [contradiction | apply IH; assumption].
Qed.

Lemma apply_attribute_constraints_edges_closed :
  forall re m m',
    edges_closed (kg_nodes m) (kg_edges m) ->
    apply_attribute_constraints re m = Ok m' ->
    edges_closed (kg_nodes m') (kg_edges m').
Proof.
  intros re m m' Hcl H; unfold apply_attribute_constraints in H.
  destruct (Nat.eqb (length (node_constraints (m_query_graph m))) 0 &&
            Nat.eqb (length (edge_constraints (m_query_graph m))) 0).
  { injection H as <-; exact Hcl. }
  destruct (res_fold _ _ (m_results m)) as [[cn ce] | err]; cbn [bind] in H; [| discriminate].
  destruct (res_fold _ _ cn) as [ntf | err]; cbn [bind] in H; [| discriminate].
  destruct (res_fold (mark_edge re ce ntf) [] (kg_edges m)) as [etf | err] eqn:He;
    cbn [bind] in H; [| discriminate].
  injection H as <-; simpl.
  destruct (mark_edge_fold re ce ntf (kg_edges m) [] etf He) as [_ Hadj].
  intros k e Hin; apply filter_In in Hin as [Hin Hk]; simpl in Hk.
  destruct (Hcl k e Hin) as [Hs Ho].
  destruct (smem (e_subject e) ntf) eqn:Hsn;
    [rewrite (Hadj k e Hin) in Hk; [discriminate | rewrite Hsn; reflexivity] |].
  destruct (smem (e_object e) ntf) eqn:Hon.
  - rewrite (Hadj k e Hin) in Hk; [discriminate | rewrite Hsn, Hon; reflexivity].
  - split; apply dmem_filter_keep; assumption.
Qed.

(** C3: in the knowledge graph that [build_trapi_message] returns, every
    edge has its subject and its object among the node keys; this stays
    true after the attribute mapping and after the filtering of
    [apply_attribute_constraints], which drops every edge adjacent to a
    dropped node.  (No precondition on the TermMatches is needed for a
    returned graph: the object of a TermMatch is looked up in the node map,
    [node_map[term_object_id]], which raises [KeyError] when it is not an
    input term.) *)
Theorem kg_edges_lead_between_kg_nodes :
  forall (get_categories : string -> list string) (qg : query_graph) (r : result_t)
         (provenance : string) (st : build_state),
    build_trapi_message get_categories qg r provenance = Ok (BuildOk st) ->
    edges_closed (node_map st) (edges st) /\
    forall skip_list value_types get_attribute_bl_info re_match m1 m2,
      transform_attributes skip_list value_types get_attribute_bl_info provenance
        (merge_response qg st) = Ok m1 ->
      apply_attribute_constraints re_match m1 = Ok m2 ->
      edges_closed (kg_nodes m1) (kg_edges m1) /\ edges_closed (kg_nodes m2) (kg_edges m2).
Proof.
  intros get_categories qg r provenance st H.
  pose proof (build_trapi_message_edges_closed get_categories qg r provenance st H) as Hcl.
  split; [exact Hcl |].
  intros skip_list value_types get_attribute_bl_info re_match m1 m2 Ht Ha.
  assert (H1 : edges_closed (kg_nodes m1) (kg_edges m1))
    by exact (transform_attributes_edges_closed skip_list value_types get_attribute_bl_info
                provenance (merge_response qg st) m1 Hcl Ht).
  split; [exact H1 | exact (apply_attribute_constraints_edges_closed re_match m1 m2 H1 Ha)].
Qed.

Lemma kg_edges_lead_between_kg_nodes_witness :
  match scenario_many_result with
  | Some r =>
      match build_trapi_message scenario_categories (mk_query_graph "MANY" []) r PROVENANCE with
      | Ok (BuildOk st) =>
          edges_closed (node_map st) (edges st) /\
          forall skip_list value_types get_attribute_bl_info re_match m1 m2,
            transform_attributes skip_list value_types get_attribute_bl_info PROVENANCE
              (merge_response (mk_query_graph "MANY" []) st) = Ok m1 ->
            apply_attribute_constraints re_match m1 = Ok m2 ->
            edges_closed (kg_nodes m1) (kg_edges m1) /\ edges_closed (kg_nodes m2) (kg_edges m2)
      | _ => False
      end
  | None => False
  end.
Proof.
  unfold scenario_many_result; cbv beta iota.
  match goal with
  | |- match ?b with _ => _ end =>
      destruct b as [[msg | st] | e] eqn:Hb; [vm_compute in Hb; discriminate | | vm_compute in Hb; discriminate]
  end.
  exact (kg_edges_lead_between_kg_nodes scenario_categories (mk_query_graph "MANY" []) _ PROVENANCE
           st Hb).
Defined.

(** ** The set-interpretation filter of [build_trapi_message] *)

Section DictLemmas3.
Context {V : Type}.

Lemma dget_In : forall k (v : V) d, dget k d = Some v -> In (k, v) d.
Proof.
  intros k v d; induction d as [| [k' v'] d IH]; simpl; [discriminate |].
  destruct (String.eqb_spec k k') as [-> | Hne]; intro H.
  - injection H as ->; left; reflexivity.
  - right; apply IH, H.
Qed.

Lemma map_fst_dset_existing :
  forall k (v : V) d, dmem k d = true -> map fst (dset k v d) = map fst d.
Proof.
  intros k v d; induction d as [| [k' v'] d IH]; unfold dmem; simpl; [discriminate |].
  destruct (String.eqb_spec k k') as [-> | Hne]; simpl; [reflexivity |].
  intro H; f_equal; apply IH; exact H.
Qed.

End DictLemmas3.

Lemma forallb_snd_dget :
  forall (d : dict bool) t b, forallb snd d = true -> dget t d = Some b -> b = true.
Proof.
  intros d t b Hall Hg; apply dget_In in Hg.
  rewrite forallb_forall in Hall; exact (Hall (t, b) Hg).
Qed.

Lemma seen0_keys :
  forall l (d : dict bool) t, dmem t d = true \/ In t l ->
    dmem t (fold_left (fun d t => dset t false d) l d) = true.
Proof.
  induction l as [| x l IH]; intros d t H; simpl.
  - destruct H as [H | []]; exact H.
  - apply IH; destruct H as [H | [<- | H]].
    + left; apply dmem_dset, H.
    + left; apply dmem_dset_self.
    + right; exact H.
Qed.

(** The bookkeeping of [input_query_term_seen]: a term marked seen is the
    query term of some entry of the match cache; marked terms stay keys;
    the node keys do not change. *)
Lemma match_step_seen :
  forall r p src nm idx c s td nm' idx' c' s',
    match_step r p src (nm, idx, c, s) td = Ok (nm', idx', c', s') ->
    ((forall t, dget t s = Some true -> exists k ce, dget k c = Some ce /\ ce_query_term ce = t) ->
     (forall t, dget t s' = Some true -> exists k ce, dget k c' = Some ce /\ ce_query_term ce = t)) /\
    (forall t, dmem t s = true -> dmem t s' = true) /\
    map fst nm' = map fst nm.
Proof.
  intros r p src nm idx c s td nm' idx' c' s' H.
  unfold match_step in H.
  destruct (dget (subject_id td) c) as [ce0 |] eqn:Hg0;
    [destruct (td_score td <? ce_score ce0) |].
  1: injection H as <- <- <- <-; auto.
  all: destruct (dindex (object_id td) nm) as [nd | e] eqn:Hd; cbn [bind] in H; [| discriminate];
    injection H as Hnm _ Hc Hs;
    apply dindex_dmem in Hd.
  all: split; [| split].
  (* the invariant, after a replacement *)
  1: { intros Hinv t Ht; subst c' s'.
       destruct (String.eqb_spec t (object_id td)) as [-> | Hne].
       - exists (subject_id td); eexists; split; [apply dget_dset_eq | reflexivity].
       - assert (Ht1 : dget t (dset (ce_query_term ce0) false s) = Some true).
         { destruct (dmem (object_id td) (dset (ce_query_term ce0) false s));
             [rewrite dget_dset_neq in Ht by exact Hne |]; exact Ht. }
         destruct (String.eqb_spec t (ce_query_term ce0)) as [-> | Hne0];
           [rewrite dget_dset_eq in Ht1; discriminate |].
         rewrite dget_dset_neq in Ht1 by exact Hne0.
         destruct (Hinv t Ht1) as (k & ce & Hk & Hq).
         destruct (String.eqb_spec k (subject_id td)) as [-> | Hnek].
         + rewrite Hg0 in Hk; injection Hk as <-; symmetry in Hq; contradiction.
         + exists k, ce; split; [rewrite dget_dset_neq by exact Hnek; exact Hk | exact Hq]. }
  3: { intros Hinv t Ht; subst c' s'.
       destruct (String.eqb_spec t (object_id td)) as [-> | Hne].
       - exists (subject_id td); eexists; split; [apply dget_dset_eq | reflexivity].
       - assert (Ht1 : dget t s = Some true).
         { destruct (dmem (object_id td) s);
             [rewrite dget_dset_neq in Ht by exact Hne |]; exact Ht. }
         destruct (Hinv t Ht1) as (k & ce & Hk & Hq).
         destruct (String.eqb_spec k (subject_id td)) as [-> | Hnek].
         + rewrite Hg0 in Hk; discriminate.
         + exists k, ce; split; [rewrite dget_dset_neq by exact Hnek; exact Hk | exact Hq]. }
  (* seen keys grow *)
  1, 3: intros t Ht; subst s';
        match goal with
        | |- dmem t (if ?b then _ else _) = true => destruct b
        end; repeat apply dmem_dset; try apply dmem_dset; exact Ht.
  (* node keys *)
  all: rewrite <- Hnm; destruct (n_name nd); [reflexivity | apply map_fst_dset_existing, Hd].
Qed.

Lemma dmem_map_fst :
  forall {V W : Type} (d : dict V) (d' : dict W) x, map fst d = map fst d' -> dmem x d = dmem x d'.
Proof.
  intros V W d; induction d as [| [k v] d IH]; intros [| [k' w] d'] x H; simpl in H;
    try discriminate; [reflexivity |].
  injection H as <- Hd; unfold dmem in *; simpl.
  destruct (String.eqb x k); [reflexivity | apply IH, Hd].
Qed.

Lemma match_loop_seen_fold :
  forall r p src tds nm idx c s nm' idx' c' s',
    (forall t, dget t s = Some true -> exists k ce, dget k c = Some ce /\ ce_query_term ce = t) ->
    res_fold (match_step r p src) (nm, idx, c, s) tds = Ok (nm', idx', c', s') ->
    (forall t, dget t s' = Some true -> exists k ce, dget k c' = Some ce /\ ce_query_term ce = t) /\
    (forall t, dmem t s = true -> dmem t s' = true) /\
    map fst nm' = map fst nm.
Proof.
  intros r p src tds nm idx c s nm' idx' c' s' Hinv H.
  refine (res_fold_invariant
            (fun a : match_loop_state =>
               let '(nma, _, ca, sa) := a in
               (forall t, dget t sa = Some true ->
                  exists k ce, dget k ca = Some ce /\ ce_query_term ce = t) /\
               (forall t, dmem t s = true -> dmem t sa = true) /\
               map fst nma = map fst nm)
            _ tds _ _ _ _ H).
  - split; [exact Hinv | split; [auto | reflexivity]].
  - intros [[[nma idxa] ca] sa] td [[[nmb idxb] cb] sb] _ (Hi & Hk & Hn) Hs.
    destruct (match_step_seen r p src nma idxa ca sa td nmb idxb cb sb Hs) as (Hi' & Hk' & Hn').
    split; [apply Hi', Hi |]; split; [intros t Ht; apply Hk', Hk, Ht |].
    rewrite Hn'; exact Hn.
Qed.

Lemma match_loop_ok :
  forall r p src tds nm idx c s,
    (forall td, In td tds -> dmem (object_id td) nm = true) ->
    exists out, res_fold (match_step r p src) (nm, idx, c, s) tds = Ok out.
Proof.
  intros r p src tds; induction tds as [| td tds IH]; intros nm idx c s Hobj.
  - eexists; reflexivity.
  - cbn [res_fold].
    destruct (match_step r p src (nm, idx, c, s) td) as [[[[nm1 idx1] c1] s1] | e] eqn:Hs.
    + cbn [bind]; apply IH; intros td' Hin.
      destruct (match_step_seen r p src nm idx c s td nm1 idx1 c1 s1 Hs) as (_ & _ & Hn).
      rewrite (dmem_map_fst nm1 nm _ Hn); apply Hobj; right; exact Hin.
    + exfalso; unfold match_step in Hs.
      assert (Hd : exists nd, dindex (object_id td) nm = Ok nd).
      { specialize (Hobj td (or_introl eq_refl)); unfold dindex, dmem in *.
        destruct (dget (object_id td) nm); [eexists; reflexivity | discriminate]. }
      destruct Hd as [nd Hd].
      destruct (dget (subject_id td) c) as [ce0 |];
        [destruct (td_score td <? ce_score ce0) |]; try discriminate;
        rewrite Hd in Hs; discriminate.
Qed.

Lemma support_fold_ok :
  forall get_categories membership p aid cache nm es sg,
    (forall k ce, In (k, ce) cache -> dmem (ce_query_term ce) membership = true) ->
    dmem aid es = true -> dmem p nm = true ->
    exists nm' es' sg',
      res_fold (support_step get_categories membership) (nm, es, sg) cache = Ok (nm', es', sg') /\
      dmem aid es' = true /\ dmem p nm' = true.
Proof.
  intros get_categories membership p aid cache; induction cache as [| [k ce] cache IH];
    intros nm es sg Hq Ha Hp.
  - exists nm, es, sg; split; [reflexivity | split; assumption].
  - cbn [res_fold].
    assert (Hm : exists mid, dindex (ce_query_term ce) membership = Ok mid).
    { specialize (Hq k ce (or_introl eq_refl)); unfold dindex, dmem in *.
      destruct (dget (ce_query_term ce) membership); [eexists; reflexivity | discriminate]. }
    destruct Hm as [mid Hm].
    unfold support_step at 1; rewrite Hm; cbn [bind].
    apply IH.
    + intros k' ce' Hin; apply (Hq k'); right; exact Hin.
    + generalize es Ha; clear.
      induction (ce_edges ce) as [| [i e] l IHl]; intros es Ha; simpl; [exact Ha |].
      apply IHl, dmem_dset, Ha.
    + destruct (dmem k nm); [exact Hp | apply dmem_dset, Hp].
Qed.

Lemma seen0_unseen :
  forall l (d : dict bool), (forall t, dget t d <> Some true) ->
    forall t, dget t (fold_left (fun d t => dset t false d) l d) <> Some true.
Proof.
  induction l as [| x l IH]; intros d Hd; simpl; [exact Hd |].
  apply IH; intro t.
  destruct (String.eqb_spec t x) as [-> | Hne].
  - rewrite dget_dset_eq; discriminate.
  - rewrite dget_dset_neq by exact Hne; apply Hd.
Qed.

Lemma match_loop_cache_terms :
  forall r p src tds nm idx s nm' idx' c' s',
    res_fold (match_step r p src) (nm, idx, [], s) tds = Ok (nm', idx', c', s') ->
    forall k ce, In (k, ce) c' -> exists td, In td tds /\ ce_query_term ce = object_id td.
Proof.
  intros r p src tds nm idx s nm' idx' c' s' H.
  refine (res_fold_invariant
            (fun a : match_loop_state =>
               let '(_, _, ca, _) := a in
               forall k ce, In (k, ce) ca -> exists td, In td tds /\ ce_query_term ce = object_id td)
            _ tds _ _ _ _ H).
  - intros k ce [].
  - intros [[[nma idxa] ca] sa] td [[[nmb idxb] cb] sb] Hin Hi Hs k ce Hk.
    destruct (match_step_cache r p src nma idxa ca sa td nmb idxb cb sb Hs)
      as [[-> _] | (ce' & -> & Hce & _)]; [exact (Hi k ce Hk) |].
    destruct (In_dset_inv _ _ _ _ _ Hk) as [[_ ->] | Hk']; [| exact (Hi k ce Hk')].
    exists td; split; [exact Hin | apply Hce].
Qed.

Lemma match_loop_facts :
  forall r p re nm0 idx0 nm idx cache seen,
    match_loop r p re nm0 idx0 = Ok (nm, idx, cache, seen) ->
    (forall t, In t (query_terms r) -> dmem t seen = true) /\
    (forall t, dget t seen = Some true -> exists k ce, dget k cache = Some ce /\ ce_query_term ce = t) /\
    (forall k ce, In (k, ce) cache -> exists td, In td (re_matches re) /\ ce_query_term ce = object_id td) /\
    map fst nm = map fst nm0.
Proof.
  intros r p re nm0 idx0 nm idx cache seen H; unfold match_loop in H.
  destruct (match_loop_seen_fold _ _ _ _ _ _ _ _ _ _ _ _
              (fun t Ht => False_ind _ (seen0_unseen (query_terms r) [] (fun t0 => ltac:(discriminate)) t Ht))
              H) as (Hi & Hk & Hn).
  split; [| split; [exact Hi | split; [| exact Hn]]].
  - intros t Ht; apply Hk, seen0_keys; right; exact Ht.
  - exact (match_loop_cache_terms _ _ _ _ _ _ _ _ _ _ _ H).
Qed.

(** C4: the set-interpretation filter of [build_trapi_message], for one
    candidate [(p, re)] of the result map.  With [set_interpretation =
    "ALL"], when some input query term is the query term of no entry of the
    candidate's (deduplicated) match cache, the candidate step leaves the
    edges, the auxiliary graphs and the results as they were, and adds no
    node key.  With [set_interpretation = "MANY"], whatever subset of the
    input terms is matched, the candidate step succeeds (when its matched
    terms are known nodes and set members, and the candidate is a known
    node or has a [provided_by]) and emits the result binding, the
    candidate node, the answer edge and its support graph. *)
Theorem build_trapi_message_set_interpretation_filter :
  (forall (get_categories : string -> list string) (r : result_t)
     (provenance sk ok : string) (membership : dict string) (st : build_state)
     (p : string) (re : result_entry) nm idx cache seen (st' : build_state),
     set_interpretation r = "ALL" ->
     match_loop r p re (node_map st) (edge_idx st) = Ok (nm, idx, cache, seen) ->
     (exists t, In t (query_terms r) /\ forall k ce, In (k, ce) cache -> ce_query_term ce <> t) ->
     candidate_step get_categories r provenance sk ok membership st (p, re) = Ok st' ->
     edges st' = edges st /\ aux st' = aux st /\ results st' = results st /\
     map fst (node_map st') = map fst (node_map st)) /\
  (forall (get_categories : string -> list string) (r : result_t)
     (provenance sk ok : string) (membership : dict string) (st : build_state)
     (p : string) (re : result_entry),
     set_interpretation r = "MANY" ->
     (forall td, In td (re_matches re) ->
        dmem (object_id td) (node_map st) = true /\ dmem (object_id td) membership = true) ->
     (dmem p (node_map st) = true \/ re_provided_by re <> None) ->
     exists st', candidate_step get_categories r provenance sk ok membership st (p, re) = Ok st' /\
       results st' =
         (results st ++
          [{| node_bindings := [(sk, [set_identifier r]); (ok, [p])];
              analyses := [{| an_resource_id := provenance;
                              edge_bindings := [("e01", [fmt_edge_id (edge_idx st')])] |}] |}])%list /\
       dmem p (node_map st') = true /\
       dmem (fmt_edge_id (edge_idx st')) (edges st') = true /\
       dmem ("sg-" ++ fmt_edge_id (edge_idx st')) (aux st') = true).
Proof.
  split.
  - intros gc r prov sk ok membership st p re nm idx cache seen st' Hsi Hml (t & Ht & Hno) Hc.
    destruct (match_loop_facts _ _ _ _ _ _ _ _ _ Hml) as (Hkeys & Hinv & _ & Hn).
    assert (Hf : forallb snd seen = false).
    { destruct (forallb snd seen) eqn:Hall; [exfalso | reflexivity].
      specialize (Hkeys t Ht); unfold dmem in Hkeys.
      destruct (dget t seen) as [b |] eqn:Hg; [| discriminate].
      rewrite (forallb_snd_dget seen t b Hall Hg) in Hg.
      destruct (Hinv t Hg) as (k & ce & Hk & Hq).
      exact (Hno k ce (dget_In _ _ _ Hk) Hq). }
    unfold candidate_step in Hc; cbv beta iota zeta in Hc.
    rewrite Hml in Hc; cbn [bind] in Hc.
    assert (Hcond : (String.eqb (set_interpretation r) "ALL" && negb (forallb snd seen))%bool = true)
      by (rewrite Hsi, Hf; reflexivity).
    rewrite Hcond in Hc; injection Hc as <-; simpl.
    split; [reflexivity | split; [reflexivity | split; [reflexivity | exact Hn]]].
  - intros gc r prov sk ok membership st p re Hsi Hmatch Hp.
    destruct (match_loop_ok r p (answer_sources_of r re) (re_matches re) (node_map st) (edge_idx st)
                [] (fold_left (fun d t => dset t false d) (query_terms r) []))
      as [[[[nm idx] cache] seen] Hml].
    { intros td Hin; apply Hmatch, Hin. }
    change (res_fold (match_step r p (answer_sources_of r re))
              (node_map st, edge_idx st, [],
               fold_left (fun d t => dset t false d) (query_terms r) []) (re_matches re))
      with (match_loop r p re (node_map st) (edge_idx st)) in Hml.
    destruct (match_loop_facts _ _ _ _ _ _ _ _ _ Hml) as (_ & _ & Hterms & Hn).
    assert (Hq : forall k ce, In (k, ce) cache -> dmem (ce_query_term ce) membership = true).
    { intros k ce Hin; destruct (Hterms k ce Hin) as (td & Htd & ->); apply Hmatch, Htd. }
    unfold candidate_step; cbv beta iota zeta.
    rewrite Hml; cbn [bind].
    assert (Hcond : (String.eqb (set_interpretation r) "ALL" && negb (forallb snd seen))%bool = false)
      by (rewrite Hsi; reflexivity).
    rewrite Hcond.
    assert (Hnm1 : exists nm1,
      (if dmem p nm then Ok nm
       else bind (match re_provided_by re with
                  | Some p0 => Ok p0
                  | None => Err (KeyError "provided_by") end)
              (fun pb => Ok (dset p
                 {| n_name := Some (re_name re);
                    n_categories := gc (re_category re);
                    n_is_set := Some false; n_members := None;
                    n_provided_by := Some (VStr pb); n_attributes := None |} nm))) = Ok nm1 /\
      dmem p nm1 = true).
    { destruct (dmem p nm) eqn:Hd; [exists nm; split; [reflexivity | exact Hd] |].
      destruct (re_provided_by re) as [pb |] eqn:Hpb.
      - eexists; split; [reflexivity | apply dmem_dset_self].
      - exfalso; destruct Hp as [Hp | Hp]; [| apply Hp; reflexivity].
        rewrite (dmem_map_fst (node_map st) nm p (eq_sym Hn)) in Hp; congruence. }
    destruct Hnm1 as (nm1 & Hnm1 & Hp1).
    rewrite Hnm1; cbn [bind].
    match goal with
    | |- context [res_fold (support_step gc membership) (nm1, ?es, []) cache] =>
        destruct (support_fold_ok gc membership p (fmt_edge_id (S idx)) cache nm1 es []
                    Hq (dmem_dset_self _ _ _) Hp1) as (nm2 & es2 & sg2 & Hsup & Ha2 & Hp2)
    end.
    rewrite Hsup; cbn [bind].
    eexists; split; [reflexivity |]; simpl.
    split; [reflexivity |]; split; [exact Hp2 |]; split; [exact Ha2 |].
    apply dmem_dset_self.
Qed.

Lemma build_trapi_message_set_interpretation_filter_witness :
  (exists st',
     candidate_step scenario_categories (scenario_r "ALL") PROVENANCE "phenotypes" "diseases"
       (snd (scenario_start (scenario_r "ALL"))) (fst (scenario_start (scenario_r "ALL")))
       ("MONDO:0009122", partial_candidate (scenario_r "ALL")) = Ok st' /\
     edges st' = edges (fst (scenario_start (scenario_r "ALL"))) /\
     aux st' = aux (fst (scenario_start (scenario_r "ALL"))) /\
     results st' = results (fst (scenario_start (scenario_r "ALL"))) /\
     map fst (node_map st') = map fst (node_map (fst (scenario_start (scenario_r "ALL"))))) /\
  (exists st',
     candidate_step scenario_categories (scenario_r "MANY") PROVENANCE "phenotypes" "diseases"
       (snd (scenario_start (scenario_r "MANY"))) (fst (scenario_start (scenario_r "MANY")))
       ("MONDO:0009122", partial_candidate (scenario_r "MANY")) = Ok st' /\
     results st' =
       (results (fst (scenario_start (scenario_r "MANY"))) ++
        [{| node_bindings := [("phenotypes", [set_identifier (scenario_r "MANY")]);
                              ("diseases", ["MONDO:0009122"])];
            analyses := [{| an_resource_id := PROVENANCE;
                            edge_bindings := [("e01", [fmt_edge_id (edge_idx st')])] |}] |}])%list /\
     dmem "MONDO:0009122" (node_map st') = true /\
     dmem (fmt_edge_id (edge_idx st')) (edges st') = true /\
     dmem ("sg-" ++ fmt_edge_id (edge_idx st')) (aux st') = true).
Proof.
  split.
  - destruct (match_loop (scenario_r "ALL") "MONDO:0009122" (partial_candidate (scenario_r "ALL"))
                (node_map (fst (scenario_start (scenario_r "ALL"))))
                (edge_idx (fst (scenario_start (scenario_r "ALL")))))
      as [[[[nm idx] cache] seen] | e] eqn:Hml; [| vm_compute in Hml; discriminate].
    destruct (candidate_step scenario_categories (scenario_r "ALL") PROVENANCE "phenotypes" "diseases"
                (snd (scenario_start (scenario_r "ALL"))) (fst (scenario_start (scenario_r "ALL")))
                ("MONDO:0009122", partial_candidate (scenario_r "ALL"))) as [st' | e] eqn:Hc;
      [| vm_compute in Hc; discriminate].
    exists st'; split; [reflexivity |].
    refine (proj1 build_trapi_message_set_interpretation_filter
              scenario_categories (scenario_r "ALL") PROVENANCE "phenotypes" "diseases"
              (snd (scenario_start (scenario_r "ALL"))) (fst (scenario_start (scenario_r "ALL")))
              "MONDO:0009122" (partial_candidate (scenario_r "ALL")) nm idx cache seen st'
              _ Hml _ Hc).
    + vm_compute; reflexivity.
    + exists "HP:0012378"; split; [vm_compute; right; left; reflexivity |].
      vm_compute in Hml; injection Hml as _ _ <- _.
      intros k ce [Hk | []]; injection Hk as _ <-; vm_compute; discriminate.
  - exact (proj2 build_trapi_message_set_interpretation_filter
             scenario_categories (scenario_r "MANY") PROVENANCE "phenotypes" "diseases"
             (snd (scenario_start (scenario_r "MANY"))) (fst (scenario_start (scenario_r "MANY")))
             "MONDO:0009122" (partial_candidate (scenario_r "MANY"))
             ltac:(vm_compute; reflexivity)
             ltac:(intros td Hin; vm_compute in Hin; destruct Hin as [<- | []];
                   split; vm_compute; reflexivity)
             ltac:(right; vm_compute; discriminate)).
Defined.

(** * Further properties of the code *)

(** ** The constraint operators of [constraints.py] *)

Lemma py_eq_refl : forall a, py_eq a a = true.
Proof.
  fix IH 1; intros [| b | z | s | l]; simpl.
  - reflexivity.
  - apply Z.eqb_refl.
  - apply Z.eqb_refl.
  - apply String.eqb_refl.
  - revert l; fix IHl 1; intros [| x l]; [reflexivity |].
    rewrite (IH x); apply IHl.
Qed.

Lemma py_lt_irrefl : forall a, py_lt a a <> Ok true.
Proof.
  fix IH 1; intros [| b | z | s | l]; simpl.
  - discriminate.
  - rewrite Z.ltb_irrefl; discriminate.
  - rewrite Z.ltb_irrefl; discriminate.
  - pose proof (String.compare_antisym s s) as H.
    destruct (String.compare s s); simpl in H; congruence.
  - revert l; fix IHl 1; intros [| x l]; [discriminate |].
    rewrite py_eq_refl; apply IHl.
Qed.

Lemma is_same_data_type_refl : forall a, is_same_data_type a a = true.
Proof. intros [| | | |]; reflexivity. Qed.


(** Values of different data types (a string against a number, a list
    against a string, ...) never satisfy an operator: [apply_operator]
    answers [False] without comparing them, so a NEGATED constraint is
    satisfied by any attribute value of another data type. *)
Theorem check_attribute_constraint_type_mismatch :
  forall (re_match : string -> string -> res bool) (c : attribute_constraint) (v : value),
    is_same_data_type (c_value c) v = false ->
    check_attribute_constraint re_match c v = Ok (c_negated c).
Proof.
  intros re_match c v H; unfold check_attribute_constraint, apply_operator.
  rewrite H; cbn [negb bind]; destruct (c_negated c); reflexivity.
Qed.

Lemma check_attribute_constraint_type_mismatch_witness :
  is_same_data_type (VStr "automated_agent") (VNum 3) = false /\
  check_attribute_constraint no_regex
    (mkConstraint "biolink:agent_type" "agent type" true equal_to (VStr "automated_agent"))
    (VNum 3) = Ok true.
Proof.
  split; [reflexivity |].
  exact (check_attribute_constraint_type_mismatch no_regex
           (mkConstraint "biolink:agent_type" "agent type" true equal_to (VStr "automated_agent"))
           (VNum 3) eq_refl).
Defined.


(** [less_than] and [greater_than] never hold between a value and itself
    (they answer [False] or raise [TypeError]), while [deep_equal_to] always
    holds between a value and itself. *)
Theorem order_operators_irreflexive_deep_equal_reflexive :
  forall (re_match : string -> string -> res bool) (a : value),
    apply_operator re_match less_than a a <> Ok true /\
    apply_operator re_match greater_than a a <> Ok true /\
    apply_operator re_match deep_equal_to a a = Ok true.
Proof.
  intros re_match a; unfold apply_operator, py_gt; rewrite is_same_data_type_refl; simpl.
  split; [apply py_lt_irrefl | split; [apply py_lt_irrefl |]].
  rewrite py_eq_refl; reflexivity.
Qed.

(** [equal_to] between two lists holds iff some element of the attribute
    value is an element of the constraint value; in particular it never
    holds for an empty attribute list. *)
Theorem equal_to_lists_shared_element :
  forall (re_match : string -> string -> res bool) (la lb : list value),
    (apply_operator re_match equal_to (VList la) (VList lb) = Ok true <->
     exists x, In x lb /\ py_in x la = true) /\
    apply_operator re_match equal_to (VList la) (VList []) = Ok false.
Proof.
  intros re_match la lb; unfold apply_operator; simpl; split; [| reflexivity].
  rewrite <- existsb_exists; split; [intro H; injection H; auto | intros ->; reflexivity].
Qed.

(** ** [check_attributes] *)

Lemma check_constraint_attrs_filter :
  forall re_match c (P : attribute -> bool) attrs applied,
    (forall a, attribute_type_id a = c_id c -> P a = true) ->
    check_constraint_attrs re_match c (filter P attrs) applied =
    check_constraint_attrs re_match c attrs applied.
Proof.
  intros re_match c P attrs; induction attrs as [| a attrs IH]; intros applied HP; simpl;
    [reflexivity |].
  destruct (P a) eqn:Hp; simpl.
  - destruct (String.eqb (attribute_type_id a) (c_id c)); [| apply IH, HP].
    destruct (check_attribute_constraint re_match c (a_value a)) as [[] | e]; cbn [bind];
      [apply IH, HP | reflexivity | reflexivity].
  - destruct (String.eqb_spec (attribute_type_id a) (c_id c)) as [Heq | _];
      [rewrite (HP a Heq) in Hp; discriminate | apply IH, HP].
Qed.

(** Attributes whose [attribute_type_id] is the id of no constraint play
    no part: [check_attributes] gives the same answer (or raises the same
    error) on the attributes carrying a constrained id only. *)
Theorem check_attributes_ignores_unconstrained_attributes :
  forall (re_match : string -> string -> res bool) (cs : list attribute_constraint)
         (attrs : list attribute),
    check_attributes re_match cs
      (filter (fun a => smem (attribute_type_id a) (map c_id cs)) attrs) =
    check_attributes re_match cs attrs.
Proof.
  intros re_match cs attrs.
  assert (Hgen : forall cs' P, (forall a c, In c cs' -> attribute_type_id a = c_id c -> P a = true) ->
            check_attributes re_match cs' (filter P attrs) = check_attributes re_match cs' attrs).
  { induction cs' as [| c cs' IH]; intros P HP; simpl; [reflexivity |].
    rewrite check_constraint_attrs_filter by (intros a Ha; apply (HP a c); [left |]; auto).
    destruct (check_constraint_attrs re_match c attrs false) as [[[] |] | e]; cbn [bind];
      try reflexivity.
    apply IH; intros a c' Hc'; apply HP; right; exact Hc'. }
  apply Hgen; intros a c Hc Ha; unfold smem; apply existsb_exists.
  exists (c_id c); split; [apply in_map, Hc | rewrite Ha; apply String.eqb_refl].
Qed.

(** The constraints are checked in order and conjoined: the constraints
    of [cs2] are only evaluated when all of [cs1] hold. *)
Theorem check_attributes_app :
  forall (re_match : string -> string -> res bool) (cs1 cs2 : list attribute_constraint)
         (attrs : list attribute),
    check_attributes re_match (cs1 ++ cs2) attrs =
    (b <- check_attributes re_match cs1 attrs ;;
     if b then check_attributes re_match cs2 attrs else Ok false).
Proof.
  intros re_match cs1 cs2 attrs; induction cs1 as [| c cs1 IH]; simpl; [reflexivity |].
  destruct (check_constraint_attrs re_match c attrs false) as [[[] |] | e]; cbn [bind];
    [exact IH | reflexivity | reflexivity | reflexivity].
Qed.

(** ** [Question._construct_sources_tree] *)

Lemma set_add_In : forall x y s, In x (set_add y s) <-> x = y \/ In x s.
Proof.
  intros x y s; unfold set_add.
  destruct (existsb (String.eqb y) s) eqn:He.
  - apply existsb_exists in He as (z & Hz & Hyz); apply String.eqb_eq in Hyz; subst z.
    split; [intro H; right; exact H | intros [-> | H]; assumption].
  - rewrite in_app_iff; simpl; split; [intros [H | [H | []]]; auto | intros [H | H]; auto].
Qed.

Lemma set_add_NoDup : forall y s, NoDup s -> NoDup (set_add y s).
Proof.
  intros y s Hs; unfold set_add.
  destruct (existsb (String.eqb y) s) eqn:He; [exact Hs |].
  apply NoDup_app; [exact Hs | constructor; [intros [] | constructor] |].
  intros a Ha [-> | []].
  assert (Hin : existsb (String.eqb a) s = true)
    by (apply existsb_exists; exists a; split; [exact Ha | apply String.eqb_refl]).
  congruence.
Qed.

Lemma NoDup_map_inj :
  forall {A B : Type} (f : A -> B) (l : list A),
    (forall x y, f x = f y -> x = y) -> NoDup l -> NoDup (map f l).
Proof.
  intros A B f l Hf; induction l as [| x l IH]; intro Hnd; simpl; [constructor |].
  inversion Hnd as [| x' l' Hnin Hnd']; subst.
  constructor; [| apply IH, Hnd'].
  intro Hin; apply in_map_iff in Hin as (y & Hy & Hin).
  apply Hf in Hy; subst y; contradiction.
Qed.

Lemma sources_step_groups_ok :
  forall sources src groups urls groups' urls',
    In src sources -> groups_ok sources groups ->
    sources_step (groups, urls) src = Ok (groups', urls') -> groups_ok sources groups'.
Proof.
  intros sources src groups urls groups' urls' Hsrc [Hnd Hg] H; unfold sources_step in H.
  destruct (resource_id src) as [rid |] eqn:Hrid; [| injection H as <- <-; split; assumption].
  destruct (resource_role src) as [role |] eqn:Hrole; [| injection H as <- <-; split; assumption].
  destruct (rid_truthy rid && str_truthy role)%bool; cbn [negb] in H;
    [| injection H as <- <-; split; assumption].
  destruct rid as [id | l]; [| discriminate].
  injection H as <- <-.
  set (role' := normalize_role role).
  set (old := match dget role' groups with Some s => s | None => [] end).
  assert (Hold : NoDup old /\ forall x, In x old -> exists src r0,
             In src sources /\ resource_id src = Some (RStr x) /\ resource_role src = Some r0 /\
             normalize_role r0 = role').
  { unfold old; destruct (dget role' groups) as [s |] eqn:Hd.
    - apply (Hg role' s), dget_In, Hd.
    - split; [constructor | intros x []]. }
  rewrite dget_dset_eq.
  split; [apply NoDup_dset, NoDup_dset, Hnd |].
  intros r ids Hin.
  destruct (In_dset_inv _ _ _ _ _ Hin) as [[-> ->] | Hin1].
  - split; [apply set_add_NoDup, Hold |].
    intros x Hx; apply set_add_In in Hx as [-> | Hx]; [| apply Hold, Hx].
    exists src, role; repeat split; assumption.
  - destruct (In_dset_inv _ _ _ _ _ Hin1) as [[-> ->] | Hin2]; [exact Hold | exact (Hg r ids Hin2)].
Qed.

Lemma format_role_entries :
  forall groups urls g e, In e (format_role groups urls g) ->
    exists rid, In rid (snd g) /\ resource_id e = Some (RStr rid) /\ resource_role e = Some (fst g).
Proof.
  intros groups urls [role rids] e H; unfold format_role in H.
  apply in_map_iff in H as (rid & <- & Hin); exists rid; repeat split; assumption.
Qed.

Lemma formatted_NoDup :
  forall groups urls gs,
    NoDup (map fst gs) -> (forall role ids, In (role, ids) gs -> NoDup ids) ->
    NoDup (map (fun e => (resource_id e, resource_role e)) (flat_map (format_role groups urls) gs)).
Proof.
  intros groups urls gs; induction gs as [| [role rids] gs IH]; intros Hnd Hids; simpl;
    [constructor |].
  inversion Hnd as [| x l Hnin Hnd']; subst.
  rewrite map_app; apply NoDup_app.
  - unfold format_role; rewrite map_map; simpl.
    apply NoDup_map_inj; [intros x y Hxy; injection Hxy; auto |].
    apply (Hids role rids); left; reflexivity.
  - apply IH; [exact Hnd' | intros r i Hin; apply (Hids r i); right; exact Hin].
  - intros a Ha Hb.
    apply in_map_iff in Ha as (e1 & <- & Ha); apply in_map_iff in Hb as (e2 & He & Hb).
    destruct (format_role_entries groups urls (role, rids) e1 Ha) as (_ & _ & _ & Hr1).
    apply in_flat_map in Hb as ([r2 ids2] & Hg2 & Hb).
    destruct (format_role_entries _ _ _ _ Hb) as (_ & _ & _ & Hr2).
    injection He as _ Hr; rewrite Hr1, Hr2 in Hr; injection Hr as Hr; simpl in Hr.
    apply Hnin; rewrite <- Hr; apply (in_map fst) in Hg2; exact Hg2.
Qed.

(** Whenever [_construct_sources_tree] returns, its list ends with the
    system entry (the provenance as [aggregator_knowledge_source]); the
    entries before it carry no (resource id, role) pair twice, and each of
    them carries the (string) id of an input stub, with that stub's role
    after the [lstrip("biolink:")] normalisation. *)
Theorem construct_sources_tree_shape :
  forall (provenance : string) (sources out : list source),
    construct_sources_tree provenance sources = Ok out ->
    exists pre ups,
      out = (pre ++ [system_entry provenance ups])%list /\
      NoDup (map (fun e => (resource_id e, resource_role e)) pre) /\
      forall e, In e pre -> exists src id role,
        In src sources /\ resource_id src = Some (RStr id) /\ resource_role src = Some role /\
        resource_id e = Some (RStr id) /\ resource_role e = Some (normalize_role role).
Proof.
  intros provenance sources out H; unfold construct_sources_tree in H.
  destruct sources as [| s0 ss] eqn:Hs.
  - injection H as <-; exists [], None; split; [reflexivity |].
    split; [constructor | intros e []].
  - rewrite <- Hs in H |- *.
    destruct (res_fold sources_step ([], []) sources) as [[groups urls] | e] eqn:Hf;
      cbn [bind] in H; [| discriminate].
    injection H as <-.
    assert (Hok : groups_ok sources groups).
    { refine (res_fold_invariant (fun acc => groups_ok sources (fst acc)) sources_step sources
                _ _ _ _ Hf); simpl.
      - split; [constructor | intros r i []].
      - intros [g u] src [g' u'] Hin Hg Hst; exact (sources_step_groups_ok _ _ _ _ _ _ Hin Hg Hst). }
    destruct Hok as [Hnd Hg].
    eexists; eexists; split; [reflexivity |]; split.
    + apply formatted_NoDup; [exact Hnd | intros r i Hin; apply (Hg r i Hin)].
    + intros e He; apply in_flat_map in He as ([role rids] & Hgin & He).
      destruct (format_role_entries _ _ _ _ He) as (rid & Hrid & Hid & Hrole); simpl in *.
      destruct (proj2 (Hg role rids Hgin) rid Hrid) as (src & r0 & Hsrc & Hsid & Hsr & Hn).
      exists src, rid, r0; repeat split; try assumption; rewrite Hrole, Hn; reflexivity.
Qed.

Lemma construct_sources_tree_shape_witness :
  exists out,
    construct_sources_tree PROVENANCE
      [stub "infores:hpo-annotations" "biolink:supporting_data_source";
       stub "infores:upheno" "supporting_data_source";
       stub "infores:hpo-annotations" "supporting_data_source";
       stub "infores:semsimian-kp" "primary_knowledge_source"] = Ok out /\
    exists pre ups,
      out = (pre ++ [system_entry PROVENANCE ups])%list /\
      NoDup (map (fun e => (resource_id e, resource_role e)) pre) /\
      forall e, In e pre -> exists src id role,
        In src [stub "infores:hpo-annotations" "biolink:supporting_data_source";
                stub "infores:upheno" "supporting_data_source";
                stub "infores:hpo-annotations" "supporting_data_source";
                stub "infores:semsimian-kp" "primary_knowledge_source"] /\
        resource_id src = Some (RStr id) /\ resource_role src = Some role /\
        resource_id e = Some (RStr id) /\ resource_role e = Some (normalize_role role).
Proof.
  destruct (construct_sources_tree PROVENANCE
      [stub "infores:hpo-annotations" "biolink:supporting_data_source";
       stub "infores:upheno" "supporting_data_source";
       stub "infores:hpo-annotations" "supporting_data_source";
       stub "infores:semsimian-kp" "primary_knowledge_source"]) as [out | e] eqn:H;
    [| vm_compute in H; discriminate].
  exists out; split; [reflexivity | exact (construct_sources_tree_shape _ _ _ H)].
Defined.

(** A stub without a (truthy) [resource_id] or [resource_role] is pruned:
    the sources tree is the one of the other stubs. *)
Theorem construct_sources_tree_prunes_invalid_stub :
  forall (provenance : string) (bad : source) (rest : list source),
    (forall rid role, resource_id bad = Some rid -> resource_role bad = Some role ->
       (rid_truthy rid && str_truthy role)%bool = false) ->
    construct_sources_tree provenance (bad :: rest) = construct_sources_tree provenance rest.
Proof.
  intros provenance bad rest Hbad.
  assert (Hstep : sources_step ([], []) bad = Ok ([], [])).
  { unfold sources_step.
    destruct (resource_id bad) as [rid |] eqn:Hrid; [| reflexivity].
    destruct (resource_role bad) as [role |] eqn:Hrole; [| reflexivity].
    rewrite (Hbad rid role eq_refl eq_refl); reflexivity. }
  unfold construct_sources_tree; cbn [res_fold]; rewrite Hstep; cbn [bind].
  destruct rest; reflexivity.
Qed.

Lemma construct_sources_tree_prunes_invalid_stub_witness :
  (forall rid role,
     resource_id {| resource_id := Some (RStr ""); resource_role := Some "primary_knowledge_source";
                    source_record_urls := None; upstream_resource_ids := None |} = Some rid ->
     resource_role {| resource_id := Some (RStr ""); resource_role := Some "primary_knowledge_source";
                      source_record_urls := None; upstream_resource_ids := None |} = Some role ->
     (rid_truthy rid && str_truthy role)%bool = false) /\
  construct_sources_tree PROVENANCE
    [{| resource_id := Some (RStr ""); resource_role := Some "primary_knowledge_source";
        source_record_urls := None; upstream_resource_ids := None |};
     stub "infores:upheno" "supporting_data_source"] =
  construct_sources_tree PROVENANCE [stub "infores:upheno" "supporting_data_source"].
Proof.
  assert (Hbad : forall rid role,
     resource_id {| resource_id := Some (RStr ""); resource_role := Some "primary_knowledge_source";
                    source_record_urls := None; upstream_resource_ids := None |} = Some rid ->
     resource_role {| resource_id := Some (RStr ""); resource_role := Some "primary_knowledge_source";
                      source_record_urls := None; upstream_resource_ids := None |} = Some role ->
     (rid_truthy rid && str_truthy role)%bool = false).
  { intros rid role H1 H2; injection H1 as <-; reflexivity. }
  split; [exact Hbad | exact (construct_sources_tree_prunes_invalid_stub _ _ _ Hbad)].
Defined.

(** ** [MonarchInterface.parse_raw_semsim] *)

Lemma find_app :
  forall {A : Type} (p : A -> bool) l1 l2,
    find p (l1 ++ l2) = match find p l1 with Some y => Some y | None => find p l2 end.
Proof.
  intros A p l1 l2; induction l1 as [| x l1 IH]; simpl; [reflexivity |].
  destruct (p x); [reflexivity | exact IH].
Qed.

Lemma find_none_existsb :
  forall {A : Type} (p : A -> bool) l, find p l = None <-> existsb p l = false.
Proof.
  intros A p l; induction l as [| x l IH]; simpl; [tauto |].
  destruct (p x); simpl; [split; discriminate | exact IH].
Qed.

Lemma existsb_rev :
  forall {A : Type} (p : A -> bool) l, existsb p (rev l) = existsb p l.
Proof.
  intros A p l; induction l as [| x l IH]; simpl; [reflexivity |].
  rewrite existsb_app, IH; simpl; rewrite orb_false_r, orb_comm; reflexivity.
Qed.

Lemma parse_fold_lookup :
  forall c l acc k,
    dget k (fold_left (fun result entry =>
              dset (subject_id_s (subject entry)) (entry_of_record c entry) result) l acc) =
    match find (fun e => String.eqb (subject_id_s (subject e)) k) (rev l) with
    | Some e => Some (entry_of_record c e)
    | None => dget k acc
    end.
Proof.
  intros c l; induction l as [| x l IH]; intros acc k; simpl; [reflexivity |].
  rewrite IH, find_app; simpl.
  destruct (find _ (rev l)); [reflexivity |].
  destruct (String.eqb_spec k (subject_id_s (subject x))) as [-> | Hne].
  - rewrite dget_dset_eq, String.eqb_refl; reflexivity.
  - rewrite dget_dset_neq by exact Hne.
    destruct (String.eqb_spec (subject_id_s (subject x)) k); [congruence | reflexivity].
Qed.

Lemma parse_fold_NoDup :
  forall c l acc, NoDup (map fst acc) ->
    NoDup (map fst (fold_left (fun result entry =>
              dset (subject_id_s (subject entry)) (entry_of_record c entry) result) l acc)).
Proof.
  intros c l; induction l as [| x l IH]; intros acc H; simpl; [exact H |].
  apply IH, NoDup_dset, H.
Qed.

(** The result map built from the SemSimian records has one entry per
    distinct subject id, and no other: the entry of subject [k] is built
    from the LAST record of subject [k] (a later record overwrites an
    earlier one). *)
Theorem parse_raw_semsim_lookup :
  forall (full_result : list semsim_record) (match_category : string),
    NoDup (map fst (parse_raw_semsim full_result match_category)) /\
    forall k,
      dget k (parse_raw_semsim full_result match_category) =
      match find (fun e => String.eqb (subject_id_s (subject e)) k) (rev full_result) with
      | Some e => Some (entry_of_record match_category e)
      | None => None
      end.
Proof.
  intros full_result c; split.
  - apply parse_fold_NoDup; constructor.
  - intro k; unfold parse_raw_semsim; rewrite parse_fold_lookup.
    destruct (find _ _); reflexivity.
Qed.

Lemma parse_raw_semsim_keys :
  forall full_result c k,
    dmem k (parse_raw_semsim full_result c) =
    existsb (fun e => String.eqb (subject_id_s (subject e)) k) full_result.
Proof.
  intros full_result c k; unfold dmem, parse_raw_semsim; rewrite parse_fold_lookup.
  rewrite <- existsb_rev.
  destruct (find _ (rev full_result)) eqn:Hf.
  - symmetry; apply existsb_exists.
    apply find_some in Hf as [Hin Hp]; exists s; split; assumption.
  - symmetry; apply find_none_existsb, Hf.
Qed.

(** ** [trapi.mcq_subject_qnode] *)

(** [mcq_subject_qnode] answers [None] exactly for the nodes that do not
    declare a MANY/ALL set (a declaring node either passes or raises), and
    it answers a category only for a well-formed MCQ node: one id, with a
    [UUID:] prefix in any letter case, at least one member id, and the
    category is the node's first one. *)
Theorem mcq_subject_qnode_spec :
  forall n : qnode,
    (mcq_subject_qnode n = Ok None <-> declares_mcq_set n = false) /\
    (forall c, mcq_subject_qnode n = Ok (Some c) ->
       declares_mcq_set n = true /\
       (exists u, ids n = Some [u] /\ py_startswith (py_upper u) "UUID:" = true) /\
       (exists m ms, member_ids n = Some (m :: ms)) /\
       (exists cs, categories n = Some (c :: cs))).
Proof.
  intro n; unfold mcq_subject_qnode.
  destruct (declares_mcq_set n) eqn:Hd; cbn [negb].
  - assert (Hgen : forall c, (n_ids <- py_len (ids n) ;;
        (if negb (n_ids =? 1)%nat then Err (RuntimeError mcq_error_msg)
         else id0 <- py_nth (ids n) 0 ;;
              (if negb (py_startswith (py_upper id0) "UUID:") then Err (RuntimeError mcq_error_msg)
               else n_members <- py_len (member_ids n) ;;
                    (if negb (0 <? n_members)%nat then Err (RuntimeError mcq_error_msg)
                     else c0 <- py_nth (categories n) 0 ;; Ok (Some c0))))) = Ok c ->
        exists c', c = Some c' /\
       (exists u, ids n = Some [u] /\ py_startswith (py_upper u) "UUID:" = true) /\
       (exists m ms, member_ids n = Some (m :: ms)) /\
       (exists cs, categories n = Some (c' :: cs))).
    { intros c H.
      destruct (ids n) as [[| u [| u' us]] |]; cbn in H; try discriminate.
      destruct (py_startswith (py_upper u) "UUID:") eqn:Hu; cbn in H; [| discriminate].
      destruct (member_ids n) as [[| m ms] |]; cbn in H; try discriminate.
      destruct (categories n) as [[| c0 cs] |]; cbn in H; try discriminate.
      injection H as <-; exists c0; split; [reflexivity |].
      split; [exists u; split; [reflexivity | exact Hu] |].
      split; [exists m, ms; reflexivity | exists cs; reflexivity]. }
    split.
    + split; [| discriminate].
      intro H; destruct (Hgen None H) as (c' & Hc & _); discriminate.
    + intros c H; destruct (Hgen (Some c) H) as (c' & Hc & Hu & Hm & Hcs).
      injection Hc as <-; split; [reflexivity | auto].
  - split; [split; reflexivity | intros c H; discriminate].
Qed.

Lemma mcq_subject_qnode_spec_witness :
  mcq_subject_qnode (mk_subject_qnode "ALL") = Ok (Some "biolink:PhenotypicFeature") /\
  declares_mcq_set (mk_subject_qnode "ALL") = true /\
  (exists u, ids (mk_subject_qnode "ALL") = Some [u] /\ py_startswith (py_upper u) "UUID:" = true) /\
  (exists m ms, member_ids (mk_subject_qnode "ALL") = Some (m :: ms)) /\
  (exists cs, categories (mk_subject_qnode "ALL") = Some ("biolink:PhenotypicFeature" :: cs)).
Proof.
  assert (H : mcq_subject_qnode (mk_subject_qnode "ALL") = Ok (Some "biolink:PhenotypicFeature"))
    by (vm_compute; reflexivity).
  split; [exact H | exact (proj2 (mcq_subject_qnode_spec (mk_subject_qnode "ALL")) _ H)].
Defined.

(** ** [MonarchInterface.phenotype_semsim_to_disease] *)

Lemma find_mcq_subject_none :
  forall nodes, Forall (fun kv => declares_mcq_set (snd kv) = false) nodes ->
    find_mcq_subject nodes = Ok None.
Proof.
  induction nodes as [| [k n] nodes IH]; intro H; simpl; [reflexivity |].
  inversion H as [| x l Hn Hrest]; subst; simpl in Hn.
  rewrite (mcq_subject_qnode_not_set n Hn); apply IH, Hrest.
Qed.

Lemma find_mcq_subject_found :
  forall nodes qn, find_mcq_subject nodes = Ok (Some qn) ->
    exists k, In (k, qn) nodes /\ declares_mcq_set qn = true.
Proof.
  induction nodes as [| [k n] nodes IH]; intros qn H; simpl in H; [discriminate |].
  destruct (mcq_subject_qnode n) as [[c |] | e] eqn:Hm; [| | discriminate].
  - destruct (str_truthy c).
    + injection H as <-; exists k; split; [left; reflexivity |].
      exact (proj1 (proj2 (mcq_subject_qnode_spec n) c Hm)).
    + destruct (IH qn H) as (k' & Hin & Hd); exists k'; split; [right; exact Hin | exact Hd].
  - destruct (IH qn H) as (k' & Hin & Hd); exists k'; split; [right; exact Hin | exact Hd].
Qed.

(** When no query node declares a MANY/ALL set, or when the first one that
    does is ill-formed (its check raises [RuntimeError], which is caught
    and logged), [phenotype_semsim_to_disease] returns the empty result
    without sending any similarity request: the answer is the same
    whatever the HTTP endpoint would reply. *)
Theorem phenotype_semsim_to_disease_no_mcq_subject :
  forall (post : semsim_query -> http_response) (pre : dict qnode) (k : string)
         (n : qnode) (rest : dict qnode) (msg : string) (result_limit : Z),
    Forall (fun kv => declares_mcq_set (snd kv) = false) pre ->
    (Forall (fun kv => declares_mcq_set (snd kv) = false) ((k, n) :: rest) \/
     mcq_subject_qnode n = Err (RuntimeError msg)) ->
    phenotype_semsim_to_disease post ((pre ++ (k, n) :: rest)%list) result_limit = Ok None.
Proof.
  intros post pre k n rest msg result_limit Hpre [Hall | Hn]; unfold phenotype_semsim_to_disease.
  - rewrite find_mcq_subject_none; [reflexivity |].
    apply Forall_app; split; assumption.
  - assert (Hf : find_mcq_subject ((pre ++ (k, n) :: rest)%list) = Err (RuntimeError msg)).
    { induction pre as [| [k' m] pre IH]; simpl; [rewrite Hn; reflexivity |].
      inversion Hpre as [| x l Hm Hpre']; subst; simpl in Hm.
      rewrite (mcq_subject_qnode_not_set m Hm); apply IH, Hpre'. }
    rewrite Hf; reflexivity.
Qed.

Lemma phenotype_semsim_to_disease_no_mcq_subject_witness :
  Forall (fun kv => declares_mcq_set (snd kv) = false) ([] : dict qnode) /\
  mcq_subject_qnode ill_formed_subject_qnode = Err (RuntimeError mcq_error_msg) /\
  phenotype_semsim_to_disease scenario_post
    (([] ++ ("phenotypes", ill_formed_subject_qnode) :: [("diseases", diseases_qnode)])%list) 5
  = Ok None.
Proof.
  assert (Hn : mcq_subject_qnode ill_formed_subject_qnode = Err (RuntimeError mcq_error_msg))
    by reflexivity.
  split; [constructor | split; [exact Hn |]].
  exact (phenotype_semsim_to_disease_no_mcq_subject scenario_post [] "phenotypes"
           ill_formed_subject_qnode [("diseases", diseases_qnode)] mcq_error_msg 5
           (Forall_nil _) (or_intror Hn)).
Defined.

(** A returned RESULT is read off a query node declaring a MANY/ALL set:
    its set interpretation, its first id as the set identifier and its
    [member_ids] as the query terms; the similarity request was answered
    with HTTP 200 and a non-empty list of records, and the result map has
    an entry for exactly the subject ids of those records. *)
Theorem phenotype_semsim_to_disease_result_fields :
  forall (post : semsim_query -> http_response) (nodes : dict qnode) (result_limit : Z)
         (r : result_t),
    phenotype_semsim_to_disease post nodes result_limit = Ok (Some r) ->
    exists k qn rest,
      In (k, qn) nodes /\ declares_mcq_set qn = true /\
      set_interpretation_q qn = Some (set_interpretation r) /\
      ids qn = Some (set_identifier r :: rest) /\
      member_ids qn = Some (query_terms r) /\
      status_code (post (semsim_request (query_terms r) MONDO result_limit)) = 200 /\
      response_json (post (semsim_request (query_terms r) MONDO result_limit)) <> [] /\
      forall t, dmem t (result_map r) =
        existsb (fun e => String.eqb (subject_id_s (subject e)) t)
          (response_json (post (semsim_request (query_terms r) MONDO result_limit))).
Proof.
  intros post nodes result_limit r H; unfold phenotype_semsim_to_disease in H.
  destruct (find_mcq_subject nodes) as [[qn |] | e] eqn:Hf; cbn [bind] in H;
    [| discriminate | destruct e; discriminate].
  destruct (find_mcq_subject_found nodes qn Hf) as (k & Hin & Hd).
  destruct (set_interpretation_q qn) as [si |] eqn:Hsi; cbn [bind] in H; [| discriminate].
  destruct (ids qn) as [[| sid rest] |] eqn:Hids; cbn [bind py_nth nth_error] in H;
    try discriminate.
  destruct (member_ids qn) as [qterms |] eqn:Hm; cbn [bind] in H; [| discriminate].
  unfold semsim_search in H.
  destruct (status_code (post (semsim_request qterms MONDO result_limit)) =? 200) eqn:Hst;
    cbn [negb bind] in H; [| discriminate].
  destruct (response_json (post (semsim_request qterms MONDO result_limit))) as [| e0 recs] eqn:Hr;
    cbn [bind nth_error] in H; [discriminate |].
  injection H as <-; simpl.
  exists k, qn, rest; repeat split; try assumption.
  - apply Z.eqb_eq, Hst.
  - rewrite Hr; discriminate.
  - intro t; rewrite Hr; apply parse_raw_semsim_keys.
Qed.

Lemma phenotype_semsim_to_disease_result_fields_witness :
  exists r,
    phenotype_semsim_to_disease scenario_post (qg_nodes (mk_query_graph "MANY" [])) 5 = Ok (Some r) /\
    exists k qn rest,
      In (k, qn) (qg_nodes (mk_query_graph "MANY" [])) /\ declares_mcq_set qn = true /\
      set_interpretation_q qn = Some (set_interpretation r) /\
      ids qn = Some (set_identifier r :: rest) /\
      member_ids qn = Some (query_terms r) /\
      status_code (scenario_post (semsim_request (query_terms r) MONDO 5)) = 200 /\
      response_json (scenario_post (semsim_request (query_terms r) MONDO 5)) <> [] /\
      forall t, dmem t (result_map r) =
        existsb (fun e => String.eqb (subject_id_s (subject e)) t)
          (response_json (scenario_post (semsim_request (query_terms r) MONDO 5))).
Proof.
  destruct (phenotype_semsim_to_disease scenario_post (qg_nodes (mk_query_graph "MANY" [])) 5)
    as [[r |] | e] eqn:H; [| vm_compute in H; discriminate | vm_compute in H; discriminate].
  exists r; split; [reflexivity | exact (phenotype_semsim_to_disease_result_fields _ _ _ _ H)].
Defined.

(** A well-formed MCQ subject node whose similarity request is answered
    with a non-200 status makes [phenotype_semsim_to_disease] raise the
    [RuntimeError] of [semsim_search] (it is not caught). *)
Theorem phenotype_semsim_to_disease_http_error :
  forall (post : semsim_query -> http_response) (pre : dict qnode) (k : string)
         (n : qnode) (rest : dict qnode) (result_limit : Z),
    Forall (fun kv => declares_mcq_set (snd kv) = false) pre ->
    well_formed_mcq_subject n ->
    (forall q, status_code (post q) <> 200) ->
    phenotype_semsim_to_disease post ((pre ++ (k, n) :: rest)%list) result_limit =
    Err (RuntimeError "Monarch SemSimian returned HTTP error code").
Proof.
  intros post pre k n rest result_limit Hpre Hn Hpost.
  unfold phenotype_semsim_to_disease.
  rewrite (find_mcq_subject_app pre k n rest Hpre Hn); cbn [bind].
  destruct Hn as (Hs & Hsi & (u & Hids & Hu) & (m & ms & Hm) & (c & cs & Hc & Hne)).
  destruct Hsi as [Hsi | Hsi]; rewrite Hsi, Hids, Hm; cbn [bind py_nth nth_error];
    unfold semsim_search;
    (destruct (Z.eqb_spec (status_code (post (semsim_request (m :: ms) MONDO result_limit))) 200)
       as [Heq | _]; [exfalso; exact (Hpost _ Heq) | reflexivity]).
Qed.

Lemma phenotype_semsim_to_disease_http_error_witness :
  Forall (fun kv => declares_mcq_set (snd kv) = false) ([] : dict qnode) /\
  well_formed_mcq_subject (mk_subject_qnode "ALL") /\
  (forall q, status_code (error_post q) <> 200) /\
  phenotype_semsim_to_disease error_post
    (([] ++ ("phenotypes", mk_subject_qnode "ALL") :: [("diseases", diseases_qnode)])%list) 5 =
  Err (RuntimeError "Monarch SemSimian returned HTTP error code").
Proof.
  assert (Hwf : well_formed_mcq_subject (mk_subject_qnode "ALL")).
  { unfold well_formed_mcq_subject; simpl; repeat split; auto.
    - exists scenario_set_id; split; reflexivity.
    - exists "HP:0002104", ["HP:0012378"]; reflexivity.
    - exists "biolink:PhenotypicFeature", []; split; [reflexivity | discriminate]. }
  assert (Hp : forall q, status_code (error_post q) <> 200) by (intros q; discriminate).
  split; [constructor | split; [exact Hwf | split; [exact Hp |]]].
  exact (phenotype_semsim_to_disease_http_error error_post [] "phenotypes" (mk_subject_qnode "ALL")
           [("diseases", diseases_qnode)] 5 (Forall_nil _) Hwf Hp).
Defined.

(** ** [trapi.build_trapi_message]: results and node keys *)







Lemma filter_bindings_ok :
  forall drop b acc acc',
    filter_bindings drop b acc = (acc', false) ->
    (forall q l, In (q, l) acc -> l <> [] /\ forall x, In x l -> smem x drop = false) ->
    forall q l, In (q, l) acc' -> l <> [] /\ forall x, In x l -> smem x drop = false.
Proof.
  intros drop b; induction b as [| [q l] b IH]; intros acc acc' H Hacc; simpl in H.
  - injection H as <-; exact Hacc.
  - destruct (filter (fun x => negb (smem x drop)) l) as [| y ys] eqn:Hf; [discriminate |].
    apply (IH _ _ H); intros q0 l0 Hin.
    apply In_dset_inv in Hin; destruct Hin as [[-> ->] | Hin]; [| exact (Hacc q0 l0 Hin)].
    split; [discriminate |].
    intros x Hx; rewrite <- Hf in Hx; apply filter_In in Hx; destruct Hx as [_ Hx].
    destruct (smem x drop); [discriminate | reflexivity].
Qed.



Lemma filter_result_filtered :
  forall ntf etf rs acc,
    (forall x, In x acc -> result_filtered ntf etf x) ->
    forall x, In x (fold_left (filter_result ntf etf) rs acc) -> result_filtered ntf etf x.
Proof.
  intros ntf etf rs; induction rs as [| r rs IH]; intros acc Hacc; simpl; [exact Hacc |].
  apply IH; clear IH; intros x Hx; unfold filter_result in Hx.
  destruct (filter_bindings ntf (node_bindings r) []) as [nb skip] eqn:Hnb.
  destruct skip; [exact (Hacc x Hx) |].
  destruct (existsb (fun p => snd (snd p))
              (map (fun an => (an, filter_bindings etf (edge_bindings an) [])) (analyses r)))
    eqn:Hex; [exact (Hacc x Hx) |].
  apply in_app_or in Hx; destruct Hx as [Hx | [<- | []]]; [exact (Hacc x Hx) |].
  split; simpl.
  - apply (filter_bindings_ok ntf (node_bindings r) [] nb Hnb); intros q l [].
  - intros an Han; apply in_map_iff in Han; destruct Han as (p & <- & Hp); simpl.
    destruct p as [an0 [eb sk]]; simpl.
    apply in_map_iff in Hp; destruct Hp as (an1 & Hp & Han1).
    assert (Hsk : sk = false).
    { destruct sk; [| reflexivity].
      assert (Ht : existsb (fun p => snd (snd p))
                     (map (fun an => (an, filter_bindings etf (edge_bindings an) [])) (analyses r))
                   = true).
      { apply existsb_exists; exists (an1, filter_bindings etf (edge_bindings an1) []).
        split; [apply (in_map (fun an => (an, filter_bindings etf (edge_bindings an) []))); exact Han1 |].
        rewrite Hp; reflexivity. }
      congruence. }
    subst sk; injection Hp as _ Heb.
    apply (filter_bindings_ok etf (edge_bindings an1) [] eb Heb); intros q l [].
Qed.



Lemma be_value_app :
  forall s1 s2 a, be_value (s1 ++ s2) a = be_value s2 (be_value s1 a).
Proof. induction s1 as [| c s1 IH]; intros s2 a; simpl; [reflexivity | apply IH]. Qed.

Lemma be_value_zeros : forall k, be_value (zeros k) 0%nat = 0%nat.
Proof. induction k as [| k IH]; simpl; [reflexivity | exact IH]. Qed.

Lemma be_value_nat_digits :
  forall fuel n acc, (n < fuel)%nat -> be_value (nat_digits fuel n acc) 0%nat = be_value acc n.
Proof.
  induction fuel as [| f IH]; intros n acc Hn; [lia |].
  assert (Hd : digit_val (ascii_of_nat (48 + Nat.modulo n 10)) = Nat.modulo n 10).
  { unfold digit_val; rewrite Ascii.nat_ascii_embedding;
      [lia | pose proof (Nat.mod_upper_bound n 10); lia]. }
  cbn [nat_digits]; destruct (Nat.ltb_spec n 10) as [Hlt | Hge].
  - cbn [be_value]; rewrite Hd; f_equal; rewrite Nat.mod_small by exact Hlt; lia.
  - rewrite IH.
    + cbn [be_value]; rewrite Hd; f_equal; pose proof (Nat.div_mod n 10); lia.
    + pose proof (Nat.div_lt n 10); lia.
Qed.

(** The zero-padded decimal edge ids of [next_edge_id] are pairwise
    distinct: two counter values give the same id only when equal. *)
Theorem fmt_edge_id_injective :
  forall n m, fmt_edge_id n = fmt_edge_id m <-> n = m.
Proof.
  intros n m; split; [| intros ->; reflexivity].
  intros H; unfold fmt_edge_id in H; simpl in H; injection H as H.
  apply (f_equal (fun s => be_value s 0%nat)) in H.
  rewrite !be_value_app, !be_value_zeros in H; unfold nat_to_string in H.
  rewrite !be_value_nat_digits in H by lia; exact H.
Qed.

(** When the query graph carries constraints, every result kept by
    [apply_attribute_constraints] binds each query node and each query edge
    of each analysis to a nonempty list, every id it binds that was a
    knowledge-graph node (edge) of the input is still one in the output,
    and the output graph is a sub-list of the input graph. *)
Theorem apply_attribute_constraints_results_consistent :
  forall re m m',
    apply_attribute_constraints re m = Ok m' ->
    (node_constraints (m_query_graph m) <> [] \/ edge_constraints (m_query_graph m) <> []) ->
    (forall k v, In (k, v) (kg_nodes m') -> In (k, v) (kg_nodes m)) /\
    (forall k v, In (k, v) (kg_edges m') -> In (k, v) (kg_edges m)) /\
    (forall x, In x (m_results m') ->
       (forall q l, In (q, l) (node_bindings x) ->
          l <> [] /\ forall i, In i l -> dmem i (kg_nodes m) = true -> dmem i (kg_nodes m') = true) /\
       (forall an, In an (analyses x) -> forall q l, In (q, l) (edge_bindings an) ->
          l <> [] /\ forall i, In i l -> dmem i (kg_edges m) = true -> dmem i (kg_edges m') = true)).
Proof.
  intros re m m' H Hc; unfold apply_attribute_constraints in H.
  destruct (Nat.eqb (length (node_constraints (m_query_graph m))) 0 &&
            Nat.eqb (length (edge_constraints (m_query_graph m))) 0) eqn:Hz.
  { apply andb_true_iff in Hz; destruct Hz as [H1 H2];
      apply Nat.eqb_eq, length_zero_iff_nil in H1; apply Nat.eqb_eq, length_zero_iff_nil in H2;
      destruct Hc; contradiction. }
  destruct (res_fold _ _ _) as [[cn ce] | err]; cbn [bind] in H; [| discriminate].
  destruct (res_fold (mark_node re (kg_nodes m)) [] cn) as [ntf | err]; cbn [bind] in H; [| discriminate].
  destruct (res_fold (mark_edge re ce ntf) [] (kg_edges m)) as [etf | err]; cbn [bind] in H;
    [| discriminate].
  injection H as <-; simpl.
  split; [intros k v Hin; apply filter_In in Hin; exact (proj1 Hin) |].
  split; [intros k v Hin; apply filter_In in Hin; exact (proj1 Hin) |].
  intros x Hx.
  destruct (filter_result_filtered ntf etf (m_results m) [] (fun x Hx => match Hx with end) x Hx)
    as [Hn He].
  split.
  - intros q l Hin; destruct (Hn q l Hin) as [Hne Hl]; split; [exact Hne |].
    intros i Hi Hd; apply dmem_filter_keep; [exact Hd | exact (Hl i Hi)].
  - intros an Han q l Hin; destruct (He an Han q l Hin) as [Hne Hl]; split; [exact Hne |].
    intros i Hi Hd; apply dmem_filter_keep; [exact Hd | exact (Hl i Hi)].
Qed.

Lemma res_map_format_edge_shape :
  forall skip_list value_types get_attribute_bl_info provenance es,
    match res_map (format_edge skip_list value_types get_attribute_bl_info provenance) es with
    | Ok es' =>
        map (fun kv => (fst kv, e_subject (snd kv), e_predicate (snd kv), e_object (snd kv))) es' =
        map (fun kv => (fst kv, e_subject (snd kv), e_predicate (snd kv), e_object (snd kv))) es
    | Err err => exists k ed, In (k, ed) es /\ construct_sources_tree provenance (e_sources ed) = Err err
    end.
Proof.
  intros skip_list value_types get_attribute_bl_info provenance es;
    induction es as [| [k e] es IH]; simpl; [reflexivity |].
  destruct (construct_sources_tree provenance (e_sources e)) as [srcs | err] eqn:Hc; cbn [bind].
  - destruct (res_map (format_edge skip_list value_types get_attribute_bl_info provenance) es)
      as [es' | err]; cbn [bind].
    + simpl; rewrite IH; reflexivity.
    + destruct IH as (k' & ed & Hin & He); exists k', ed; split; [right; exact Hin | exact He].
  - exists k, e; split; [left; reflexivity | exact Hc].
Qed.


(** [transform_attributes] fails exactly with the error of the sources
    tree of some edge; otherwise it keeps the query graph, the auxiliary
    graphs, the node ids and categories, every edge's id, subject,
    predicate and object, and the bindings of every result, gives every
    node an attribute list, and sets the [resource_id] of every analysis to
    the provenance. *)
Theorem transform_attributes_preserves_structure :
  forall skip_list value_types get_attribute_bl_info provenance m,
    match transform_attributes skip_list value_types get_attribute_bl_info provenance m with
    | Ok m' =>
        m_query_graph m' = m_query_graph m /\
        auxiliary_graphs m' = auxiliary_graphs m /\
        map (fun kv => (fst kv, n_categories (snd kv))) (kg_nodes m') =
          map (fun kv => (fst kv, n_categories (snd kv))) (kg_nodes m) /\
        Forall (fun kv => n_attributes (snd kv) <> None) (kg_nodes m') /\
        map (fun kv => (fst kv, e_subject (snd kv), e_predicate (snd kv), e_object (snd kv)))
            (kg_edges m') =
          map (fun kv => (fst kv, e_subject (snd kv), e_predicate (snd kv), e_object (snd kv)))
            (kg_edges m) /\
        map node_bindings (m_results m') = map node_bindings (m_results m) /\
        map (fun r => map edge_bindings (analyses r)) (m_results m') =
          map (fun r => map edge_bindings (analyses r)) (m_results m) /\
        Forall (fun r => Forall (fun an => an_resource_id an = provenance) (analyses r))
          (m_results m')
    | Err err =>
        exists k ed, In (k, ed) (kg_edges m) /\
          construct_sources_tree provenance (e_sources ed) = Err err
    end.
Proof.
  intros skip_list value_types get_attribute_bl_info provenance m.
  unfold transform_attributes.
  pose proof (res_map_format_edge_shape skip_list value_types get_attribute_bl_info provenance
                (kg_edges m)) as Hs.
  destruct (res_map (format_edge skip_list value_types get_attribute_bl_info provenance)
              (kg_edges m)) as [es | err]; cbn [bind]; [| exact Hs].
  simpl; split; [reflexivity |]; split; [reflexivity |].
  split; [rewrite map_map; apply map_ext; intros [k n]; reflexivity |].
  split; [apply Forall_forall; intros kv Hkv; apply in_map_iff in Hkv;
          destruct Hkv as ([k n] & <- & _); discriminate |].
  split; [exact Hs |].
  split; [rewrite map_map; reflexivity |].
  split; [rewrite map_map; apply map_ext; intros r; simpl; rewrite map_map; reflexivity |].
  apply Forall_forall; intros r Hr; apply in_map_iff in Hr; destruct Hr as (r0 & <- & _).
  apply Forall_forall; intros an Han; apply in_map_iff in Han; destruct Han as (an0 & <- & _).
  reflexivity.
Qed.

Lemma fold_last_some :
  forall {A B : Type} (g : A -> B) (ts : list A) (q : option B),
    fold_left (fun _ te => Some (g te)) ts q =
    match rev ts with [] => q | te :: _ => Some (g te) end.
Proof.
  intros A B g ts; induction ts as [| a ts IH]; intros q; [reflexivity |].
  simpl; rewrite IH; destruct (rev ts); reflexivity.
Qed.

Lemma schema_fold_last :
  forall py_set l templates q,
    q = last templates None ->
    snd (fold_left (schema_step py_set) l (templates, q)) =
    last (fst (fold_left (schema_step py_set) l (templates, q))) None.
Proof.
  intros py_set l; induction l as [| [st ts] l IH]; intros templates q Hq; [exact Hq |].
  simpl; apply IH; rewrite last_last; reflexivity.
Qed.

Lemma schema_fold_length :
  forall py_set l templates q,
    length (fst (fold_left (schema_step py_set) l (templates, q))) =
    (length templates + length l)%nat.
Proof.
  intros py_set l; induction l as [| [st ts] l IH]; intros templates q; simpl; [lia |].
  rewrite IH, length_app; simpl; lia.
Qed.

Lemma nat_to_string_value : forall n, be_value (nat_to_string n) 0%nat = n.
Proof. intros n; unfold nat_to_string; rewrite be_value_nat_digits by lia; reflexivity. Qed.

Lemma dset_fresh :
  forall {V : Type} k (v : V) d, ~ In k (map fst d) -> dset k v d = (d ++ [(k, v)])%list.
Proof.
  intros V k v d; induction d as [| [k' v'] d IH]; intros Hk; [reflexivity |].
  simpl; destruct (String.eqb_spec k k') as [-> | Hne]; [exfalso; apply Hk; left; reflexivity |].
  rewrite IH; [reflexivity | intros Hin; apply Hk; right; exact Hin].
Qed.

Lemma template_edges_fold :
  forall l i d,
    (forall k, In k (map fst d) -> exists j, (j < i)%nat /\ k = ("e" ++ nat_to_string j)%string) ->
    fold_left
      (fun (acc : nat * dict template_edge) edge_type =>
         let '(index, d) := acc in
         (S index,
          dset ("e" ++ nat_to_string index)
            {| te_subject := "n1"; te_object := "n2"; te_predicate := edge_type |} d))
      l (i, d) =
    ((i + length l)%nat,
     (d ++ map (fun p => (("e" ++ nat_to_string (fst p))%string,
                          {| te_subject := "n1"; te_object := "n2"; te_predicate := snd p |}))
              (combine (seq i (length l)) l))%list).
Proof.
  induction l as [| a l IH]; intros i d Hd; simpl.
  - rewrite Nat.add_0_r, app_nil_r; reflexivity.
  - rewrite dset_fresh.
    + rewrite IH.
      * rewrite <- app_assoc; f_equal; lia.
      * intros k Hk; rewrite map_app in Hk; apply in_app_or in Hk; destruct Hk as [Hk | [<- | []]].
        -- destruct (Hd k Hk) as (j & Hj & ->); exists j; split; [lia | reflexivity].
        -- exists i; split; [lia | reflexivity].
    + intros Hin; destruct (Hd _ Hin) as (j & Hj & Heq).
      simpl in Heq; injection Heq as Heq.
      apply (f_equal (fun s => be_value s 0%nat)) in Heq.
      rewrite !nat_to_string_value in Heq; lia.
Qed.

(** [transform_schema_to_question_template] produces one template per
    source type of the schema; the template of a source type is built from
    its last target type only, and a source type without target types
    repeats the previous template (the empty [dict()] when it comes
    first). *)
Theorem transform_schema_to_question_template_snoc :
  forall py_set schema st ts,
    length (transform_schema_to_question_template py_set schema) = length schema /\
    transform_schema_to_question_template py_set (schema ++ [(st, ts)])%list =
    (transform_schema_to_question_template py_set schema ++
     [match rev ts with
      | [] => last (transform_schema_to_question_template py_set schema) None
      | (tgt, es) :: _ => Some (template_graph_of py_set st tgt es)
      end])%list.
Proof.
  intros py_set schema st ts; unfold transform_schema_to_question_template.
  split; [rewrite schema_fold_length; reflexivity |].
  rewrite fold_left_app.
  pose proof (schema_fold_last py_set schema [] None eq_refl) as Hq.
  destruct (fold_left (schema_step py_set) schema ([], None)) as [T q]; simpl in Hq |- *.
  rewrite (fold_last_some (fun te : string * list string => template_graph_of py_set st (fst te) (snd te))).
  destruct (rev ts) as [| [tgt es] r]; [rewrite Hq |]; reflexivity.
Qed.

(** The edges of a template are keyed "e0", "e1", ... in the iteration
    order of [set(edge_set)], one per element, each from "n1" to "n2" with
    that predicate: no edge overwrites another. *)
Theorem template_edges_enumerated :
  forall py_set edge_set,
    template_edges py_set edge_set =
    map (fun p => (("e" ++ nat_to_string (fst p))%string,
                   {| te_subject := "n1"; te_object := "n2"; te_predicate := snd p |}))
        (combine (seq 0 (length (py_set edge_set))) (py_set edge_set)).
Proof.
  intros py_set edge_set; unfold template_edges.
  rewrite template_edges_fold; [reflexivity | intros k []].
Qed.

Lemma apply_attribute_constraints_results_consistent_witness :
  exists m',
    apply_attribute_constraints demo_re_match demo_constrained_message = Ok m' /\
    (node_constraints (m_query_graph demo_constrained_message) <> [] \/
     edge_constraints (m_query_graph demo_constrained_message) <> []) /\
    (forall k v, In (k, v) (kg_nodes m') -> In (k, v) (kg_nodes demo_constrained_message)) /\
    (forall k v, In (k, v) (kg_edges m') -> In (k, v) (kg_edges demo_constrained_message)) /\
    (forall x, In x (m_results m') ->
       (forall q l, In (q, l) (node_bindings x) ->
          l <> [] /\ forall i, In i l -> dmem i (kg_nodes demo_constrained_message) = true ->
                               dmem i (kg_nodes m') = true) /\
       (forall an, In an (analyses x) -> forall q l, In (q, l) (edge_bindings an) ->
          l <> [] /\ forall i, In i l -> dmem i (kg_edges demo_constrained_message) = true ->
                               dmem i (kg_edges m') = true)).
Proof.
  destruct (apply_attribute_constraints demo_re_match demo_constrained_message) as [m' | e] eqn:H;
    [| vm_compute in H; discriminate].
  assert (Hc : node_constraints (m_query_graph demo_constrained_message) <> [] \/
               edge_constraints (m_query_graph demo_constrained_message) <> [])
    by (right; vm_compute; discriminate).
  exists m'; split; [reflexivity |]; split; [exact Hc |].
  exact (apply_attribute_constraints_results_consistent demo_re_match demo_constrained_message m' H Hc).
Defined.
